(** * ppmadapter: the PPM decoder of [ppmadapter/__init__.py]

    A shallow embedding of the class [PPMDecoder] (constructor, [feed] and
    [signal]) and the properties of its frame decoder, pulse timer and
    sync-loss guard.

    Python integers are [Z].  Python floats are the kernel's binary64
    floats ([PrimFloat]), so that [float(w) / self._rate] and the products
    that follow are evaluated bit for bit as CPython evaluates them.  The
    calls made on the uinput device ([UInput(...)], [write], [syn]) are
    collected in a trace, in program order.  The two [print] calls of the
    class write to standard output only and are left out. *)

From Stdlib Require Import ZArith List Bool Lia String.
From Stdlib Require Import Floats QArith Qround.
Import ListNotations.

Set Warnings "-inexact-float".
Local Open Scope Z_scope.

(** ** Python's numeric primitives *)

Module Py.

(** [float(z)]: the nearest binary64 value, ties to even.  Where CPython
    raises [OverflowError] (|z| of 2^1024 and more) the result here is an
    infinity, on which [int_] below fails. *)
Definition float_ (z : Z) : float :=
  SF2Prim (binary_normalize prec emax z 0 false).

(** The integer part of a decoded float, toward zero. *)
Definition SF_trunc (x : spec_float) : option Z :=
  match x with
  | S754_zero _ => Some 0
  | S754_finite s m e =>
      let a := if e <? 0 then Z.pos m / 2 ^ (- e) else Z.pos m * 2 ^ e in
      Some (if s then - a else a)
  | S754_infinity _ | S754_nan => None
  end.

(** [int(x)] on a float: truncation toward zero; [None] where CPython raises
    ([OverflowError] on an infinity, [ValueError] on a NaN). *)
Definition int_ (x : float) : option Z := SF_trunc (Prim2SF x).

(** [z < x] for an int [z] and a float [x]: CPython compares the exact
    values, without converting [z] to a float. *)
Definition SF_Zltb (z : Z) (x : spec_float) : bool :=
  match x with
  | S754_zero _ => z <? 0
  | S754_finite s m e =>
      let v := if s then Z.neg m else Z.pos m in
      if e <? 0 then z * 2 ^ (- e) <? v else z <? v * 2 ^ e
  | S754_infinity s => negb s
  | S754_nan => false
  end.

Definition int_lt_float (z : Z) (x : float) : bool := SF_Zltb z (Prim2SF x).

(** The exact value of a float, as a rational; [None] on infinities and NaN. *)
Definition SF2Q (x : spec_float) : option Q :=
  match x with
  | S754_zero _ => Some 0%Q
  | S754_finite s m e =>
      let v := if s then Z.neg m else Z.pos m in
      Some (if e <? 0 then Qmake v (Z.to_pos (2 ^ (- e)))
            else inject_Z (v * 2 ^ e))
  | S754_infinity _ | S754_nan => None
  end.

Definition exact (x : float) : option Q := SF2Q (Prim2SF x).

(** The integer a float is equal to, when it is one. *)
Definition SF_int (x : spec_float) : option Z :=
  match x with
  | S754_zero _ => Some 0
  | S754_finite s m e =>
      let v := if s then Z.neg m else Z.pos m in
      if e <? 0
      then if v mod 2 ^ (- e) =? 0 then Some (v / 2 ^ (- e)) else None
      else Some (v * 2 ^ e)
  | S754_infinity _ | S754_nan => None
  end.

(** Truncation toward zero and rounding to nearest (ties to even, as
    Python 3's [round]) of a rational. *)
Definition Qtrunc (q : Q) : Z :=
  if Qnum q <? 0 then Qceiling q else Qfloor q.

Definition Qround_even (q : Q) : Z :=
  let f := Qfloor q in
  match Qcompare (q - inject_Z f) (1 # 2) with
  | Lt => f
  | Gt => f + 1
  | Eq => if Z.even f then f else f + 1
  end.

End Py.

(** ** The uinput device, as the decoder drives it *)

(** [ecodes.ABS_X], [ecodes.ABS_Y], [ecodes.ABS_Z], [ecodes.ABS_THROTTLE]. *)
Inductive axis : Set := ABS_X | ABS_Y | ABS_Z | ABS_THROTTLE.

(** The four-tuple given for an absolute axis in [events]. *)
Definition abs_tuple : Set := (Z * Z * Z * Z)%type.

(** Calls on [evdev.UInput], in the order the decoder makes them:
    the constructor with its [name] and the [EV_ABS] and [EV_KEY] entries of
    [events]; [write(ecodes.EV_ABS, axis, value)]; [syn()]. *)
Inductive uinput_call : Set :=
| UInput (name : string) (ev_abs : list (axis * abs_tuple))
         (ev_key : list (Z * string))
| write (a : axis) (value : Z)
| syn.

(** ** The decoder *)

Module PPMDecoder.

(** The fields [__init__] sets on [self] ([_ev] is the device above). *)
Record t : Set := mk {
  _rate : float;
  _lf : option Z;
  _threshold : Z;
  _last_edge : option bool;
  _ch : option Z;
  _marker : Z;
  _mapping : list (Z * axis)
}.

Definition set_lf (self : t) (v : option Z) : t :=
  mk (_rate self) v (_threshold self) (_last_edge self) (_ch self)
     (_marker self) (_mapping self).

Definition set_last_edge (self : t) (v : option bool) : t :=
  mk (_rate self) (_lf self) (_threshold self) v (_ch self)
     (_marker self) (_mapping self).

Definition set_ch (self : t) (v : option Z) : t :=
  mk (_rate self) (_lf self) (_threshold self) (_last_edge self) v
     (_marker self) (_mapping self).

(** [self._mapping[k]], [None] when [k not in self._mapping]. *)
Fixpoint lookup (k : Z) (m : list (Z * axis)) : option axis :=
  match m with
  | [] => None
  | (k', a) :: m' => if k =? k' then Some a else lookup k m'
  end.

Definition mapping : list (Z * axis) :=
  [(0, ABS_X); (1, ABS_Y); (2, ABS_Z); (3, ABS_THROTTLE)].

(** [PPMDecoder(rate)]: the new object and the call that creates the
    device.  [None] when [int(...)] raises on the marker size. *)
Definition __init__ (rate : Z) : option (t * list uinput_call) :=
  let _rate := Py.float_ rate in
  match Py.int_ (2.0 * 0.0025 * _rate)%float with
  | None => None
  | Some _marker =>
      let events := map (fun v => (v, (0, 5, 255, 0))) (map snd mapping) in
      Some (mk _rate None 15000 None None _marker mapping,
            [UInput "ppmadapter" events [(288, "BTN_JOYSTICK"%string)]])
  end.

(** The float whose integer part [signal] writes. *)
Definition scaled (self : t) (w : Z) : float :=
  let duration := (Py.float_ w / _rate self)%float in
  ((duration - 0.0007) * Py.float_ 1000 * Py.float_ 255)%float.

(** [self.signal(w)]: the object after the call, the device calls made and
    the returned flag; [None] when [int(...)] raises. *)
Definition signal (self : t) (w : Z) : option (t * list uinput_call * bool) :=
  if _marker self <? w then Some (set_ch self (Some 0), [], false)
  else
    match _ch self with
    | None => Some (self, [], false)
    | Some ch =>
        match lookup ch (_mapping self) with
        | None => Some (self, [], false)
        | Some a =>
            match Py.int_ (scaled self w) with
            | None => None
            | Some value =>
                Some (set_ch self (Some (ch + 1)), [write a value], true)
            end
        end
    end.

(** One turn of the loop of [feed], on sample [x] at index [i]. *)
Definition feed_step (self : t) (i x : Z)
  : option (t * list uinput_call * bool) :=
  let this_edge := _threshold self <? x in
  match _last_edge self with
  | None => Some (set_last_edge self (Some this_edge), [], false)
  | Some last_edge =>
      if this_edge && negb last_edge then
        match _lf self with
        | Some lf =>
            match signal self (i - lf) with
            | None => None
            | Some (self', out, r) =>
                Some (set_last_edge self' (Some this_edge), out, r)
            end
        | None => Some (set_last_edge self (Some this_edge), [], false)
        end
      else if negb this_edge && last_edge then
        Some (set_last_edge (set_lf self (Some i)) (Some this_edge), [], false)
      else Some (set_last_edge self (Some this_edge), [], false)
  end.

(** The loop of [feed] over the samples from index [i] on: the object, the
    device calls and what was or-ed into [sync_req]. *)
Fixpoint feed_loop (data : list Z) (i : Z) (self : t)
  : option (t * list uinput_call * bool) :=
  match data with
  | [] => Some (self, [], false)
  | x :: rest =>
      match feed_step self i x with
      | None => None
      | Some (self1, out1, r1) =>
          match feed_loop rest (i + 1) self1 with
          | None => None
          | Some (self2, out2, r2) => Some (self2, out1 ++ out2, r1 || r2)
          end
      end
  end.

(** The test [self._lf < (-self._rate)] on the offset [lf], already
    diminished by the block length. *)
Definition lost_sync (self : t) (lf : Z) : bool :=
  Py.int_lt_float lf (- _rate self)%float.

(** What [feed] does after its loop: the batched [syn], the offset made
    relative to the next block, the sync-loss test. *)
Definition feed_end (self : t) (len : Z) (out : list uinput_call)
  (sync_req : bool) : t * list uinput_call :=
  let out' := if sync_req then out ++ [syn] else out in
  match _lf self with
  | None => (self, out')
  | Some lf =>
      let self1 := set_lf self (Some (lf - len)) in
      if lost_sync self1 (lf - len)
      then (set_lf (set_ch self1 None) None, out')
      else (self1, out')
  end.

(** [self.feed(data)]. *)
Definition feed (self : t) (data : list Z) : option (t * list uinput_call) :=
  match feed_loop data 0 self with
  | None => None
  | Some (self1, out, sync_req) =>
      Some (feed_end self1 (Z.of_nat (List.length data)) out sync_req)
  end.

End PPMDecoder.

Import PPMDecoder.

(** ** Notions the properties are stated with *)

(** The sample rate of a decoder is the integer [rate]: [self._rate] is the
    float equal to it ([float(rate)] is exact for every rate below 2^53). *)
Definition sample_rate (self : t) (rate : Z) : Prop :=
  Py.SF_int (Prim2SF (_rate self)) = Some rate.

(** [float(rate)] is the integer [rate] itself. *)
Definition exact_rate (rate : Z) : Prop :=
  Py.SF_int (Prim2SF (Py.float_ rate)) = Some rate.

(** Decoder states: those a program can be in, from the construction on,
    after any number of blocks fed. *)
Inductive reachable (rate : Z) : t -> Prop :=
| reach_init self out :
    __init__ rate = Some (self, out) -> reachable rate self
| reach_feed self data self' out :
    reachable rate self -> feed self data = Some (self', out) ->
    reachable rate self'.

(** The pending falling edge, when there is one, lies before the start of
    the next block and at most [rate] samples back. *)
Definition lf_bounded (rate : Z) (self : t) : Prop :=
  match _lf self with
  | None => True
  | Some lf => - rate <= lf <= - 1
  end.

(** The pending falling edge, when there is one, does not trip the
    sync-loss test. *)
Definition lf_fresh (self : t) : Prop :=
  match _lf self with
  | None => True
  | Some lf => lost_sync self lf = false
  end.

Definition is_write (c : uinput_call) : bool :=
  match c with write _ _ => true | _ => false end.

Definition is_syn (c : uinput_call) : bool :=
  match c with syn => true | _ => false end.

Definition is_UInput (c : uinput_call) : bool :=
  match c with UInput _ _ _ => true | _ => false end.

(** The axis writes of a trace, and how many calls of a kind it has. *)
Definition writes (out : list uinput_call) : list uinput_call :=
  filter is_write out.

Definition count (p : uinput_call -> bool) (out : list uinput_call) : nat :=
  List.length (filter p out).

(** The falling-edge offset seen from [n] samples earlier. *)
Definition shift_lf (n : Z) (self : t) : t :=
  set_lf self (option_map (fun lf => lf + n) (_lf self)).

(** Feeding [b1] leaves the falling-edge offset to the next block: the
    sync-loss test at the end of [feed self b1] does not fire. *)
Definition carries_over (self : t) (b1 : list Z) : bool :=
  match feed_loop b1 0 self with
  | Some (self1, _, _) =>
      match _lf self1 with
      | Some lf => negb (lost_sync self1 (lf - Z.of_nat (List.length b1)))
      | None => true
      end
  | None => true
  end.

(** Two blocks fed one after the other. *)
Definition feed_twice (self : t) (b1 b2 : list Z)
  : option (t * list uinput_call) :=
  match feed self b1 with
  | None => None
  | Some (self1, out1) =>
      match feed self1 b2 with
      | None => None
      | Some (self2, out2) => Some (self2, out1 ++ out2)
      end
  end.

(** What an observer of the axes sees of a feed: the final state and the
    axis writes. *)
Definition observed (r : option (t * list uinput_call))
  : option (t * list uinput_call) :=
  option_map (fun '(self, out) => (self, writes out)) r.

(** The value the specification gives for a channel pulse of [w] samples:
    [(w / rate - 0.0007) * 1000 * 255] rounded to the nearest integer. *)
Definition rounded_value (self : t) (w : Z) : option Z :=
  option_map Py.Qround_even (Py.exact (scaled self w)).

(** The same with the arithmetic done in the rationals. *)
Definition rounded_value_Q (rate w : Z) : Z :=
  Py.Qround_even
    ((inject_Z w / inject_Z rate - (7 # 10000)) * inject_Z 1000 * inject_Z 255).

(** [evdev.AbsInfo]: the fields evdev reads, in this order, from the tuple
    given for an absolute axis; a tuple of four leaves the last two at 0. *)
Record AbsInfo : Set := {
  abs_value : Z; abs_min : Z; abs_max : Z;
  abs_fuzz : Z; abs_flat : Z; abs_resolution : Z
}.

Definition absinfo (v : abs_tuple) : AbsInfo :=
  let '(a, b, c, d) := v in
  {| abs_value := a; abs_min := b; abs_max := c;
     abs_fuzz := d; abs_flat := 0; abs_resolution := 0 |}.

(** The other reading of a four-tuple, [uinput_user_dev]'s
    (min, max, fuzz, flat). *)
Definition absinfo_legacy (v : abs_tuple) : AbsInfo :=
  let '(a, b, c, d) := v in
  {| abs_value := 0; abs_min := a; abs_max := b;
     abs_fuzz := c; abs_flat := d; abs_resolution := 0 |}.

(** A result of the loop with [f] applied to the object. *)
Definition lift_state (f : t -> t) (r : option (t * list uinput_call * bool))
  : option (t * list uinput_call * bool) :=
  option_map (fun '(self, out, b) => (f self, out, b)) r.

(** The calls of a loop are axis writes, and the flag it returns tells
    whether there was one. *)
Definition only_writes (out : list uinput_call) (r : bool) : Prop :=
  Forall (fun c => is_write c = true) out /\
  r = match out with [] => false | _ :: _ => true end.

(** Decoders and samples used as examples: the decoder [PPMDecoder(rate)]
    and the same one frame-synchronised on channel [k]; a sample above the
    threshold and one below. *)
Definition fresh (rate : Z) : t :=
  match __init__ rate with
  | Some (self, _) => self
  | None => mk (Py.float_ rate) None 15000 None None 0 mapping
  end.

Definition synced (rate k : Z) : t := set_ch (fresh rate) (Some k).

Definition high : Z := 20000.
Definition low : Z := 0.
Definition lows (n : Z) : list Z := repeat low (Z.to_nat n).

(** ** Blocks of samples, and the loop of [main] *)

(** Every sample of the block is at or below the threshold. *)
Definition silent (self : t) (data : list Z) : bool :=
  forallb (fun x => x <=? _threshold self) data.

(** The fields [feed] and [signal] only read. *)
Definition same_config (a b : t) : Prop :=
  _rate a = _rate b /\ _threshold a = _threshold b /\
  _marker a = _marker b /\ _mapping a = _mapping b.

(** The channel index, when set, is a channel of the mapping or the one
    after the last. *)
Definition ch_bounded (self : t) : Prop :=
  match _ch self with
  | None => True
  | Some k => 0 <= k <= Z.of_nat (List.length (_mapping self))
  end.

(** [w] low samples and a high one: after a high sample, a pulse of [w]
    samples between its falling and its rising edge.  A frame is its pulses
    one after the other. *)
Definition pulse (w : Z) : list Z := lows w ++ [high].

Definition frame (ws : list Z) : list Z := List.concat (map pulse ws).

(** The samples taken by a sequence of pulses, and the index of the falling
    edge of the last of them when the first pulse starts at [i] ([lf] when
    there is none). *)
Definition frame_length (ws : list Z) : Z :=
  fold_right (fun w n => w + 1 + n) 0 ws.

Fixpoint frame_lf (i : Z) (lf : option Z) (ws : list Z) : option Z :=
  match ws with
  | [] => lf
  | w :: ws' => frame_lf (i + w + 1) (Some i) ws'
  end.

(** The writes of the values [vs] to the axes [axes], in order. *)
Definition axis_writes (axes : list axis) (vs : list Z) : list uinput_call :=
  map (fun '(a, v) => write a v) (combine axes vs).

(** The body of the [while True] loop of [main], over the blocks the stream
    delivers one after the other: each is fed to the decoder. *)
Fixpoint feed_all (self : t) (blocks : list (list Z))
  : option (t * list uinput_call) :=
  match blocks with
  | [] => Some (self, [])
  | b :: rest =>
      match feed self b with
      | None => None
      | Some (self1, out1) =>
          match feed_all self1 rest with
          | None => None
          | Some (self2, out2) => Some (self2, out1 ++ out2)
          end
      end
  end.

(** ** The choice of the input device in [main] *)

Module Main.

(** The entries of a device description that [main] reads. *)
Record device : Set := {
  name : string;
  index : Z;
  defaultSampleRate : float
}.

(** [sub in s] on strings. *)
Fixpoint contains (sub s : string) : bool :=
  String.prefix sub s ||
  match s with
  | EmptyString => false
  | String _ s' => contains sub s'
  end.

(** [in_ix], [rate] and [in_name]. *)
Definition choice : Set := (option Z * option Z * option string)%type.

(** The assignments made when the device [d] is taken; [None] when
    [int(d['defaultSampleRate'])] raises. *)
Definition take (d : device) : option choice :=
  match Py.int_ (defaultSampleRate d) with
  | None => None
  | Some rate => Some (Some (index d), Some rate, Some (name d))
  end.

(** The loop over the devices, for the name [arg] given with [-i]: a device
    of exactly that name is taken and ends the loop; a device whose name
    contains it is taken and the loop goes on. *)
Fixpoint select_from (arg : string) (devices : list device) (cur : choice)
  : option choice :=
  match devices with
  | [] => Some cur
  | d :: rest =>
      if String.eqb arg (name d) then take d
      else if contains arg (name d) then
        match take d with
        | None => None
        | Some c => select_from arg rest c
        end
      else select_from arg rest cur
  end.

Definition select (arg : string) (devices : list device) : option choice :=
  select_from arg devices (None, None, None).

End Main.

(** ** Facts on the numeric primitives *)

Lemma pow2_pos (k : Z) : 0 <= k -> 0 < 2 ^ k.
Proof. intros; apply Z.pow_pos_nonneg; lia. Qed.

Lemma SF_trunc_exact (x : spec_float) (q : Q) :
  Py.SF2Q x = Some q -> Py.SF_trunc x = Some (Py.Qtrunc q).
Proof.
  destruct x as [s | s | | s m e]; cbn [Py.SF2Q Py.SF_trunc]; try discriminate.
  - intros [= <-]. reflexivity.
  - intros [= <-]. f_equal. unfold Py.Qtrunc.
    destruct (e <? 0) eqn:He.
    + apply Z.ltb_lt in He.
      assert (Hd : 0 < 2 ^ (- e)) by (apply pow2_pos; lia).
      destruct s; cbn [Qnum].
      * unfold Qceiling, Qfloor; cbn [Qopp Qnum Qden Z.opp Z.ltb Z.compare].
        rewrite Z2Pos.id by exact Hd. reflexivity.
      * unfold Qfloor; cbn [Z.ltb Z.compare]. rewrite Z2Pos.id by exact Hd. reflexivity.
    + apply Z.ltb_ge in He.
      assert (Hd : 0 < 2 ^ e) by (apply pow2_pos; lia).
      unfold inject_Z at 1; cbn [Qnum].
      destruct s.
      * replace (Z.neg m * 2 ^ e <? 0) with true
          by (symmetry; apply Z.ltb_lt; nia).
        rewrite Qceiling_Z. lia.
      * replace (Z.pos m * 2 ^ e <? 0) with false
          by (symmetry; apply Z.ltb_ge; nia).
        rewrite Qfloor_Z. reflexivity.
Qed.

Lemma SF_Zltb_int (x : spec_float) (r z : Z) :
  Py.SF_int x = Some r -> Py.SF_Zltb z x = (z <? r).
Proof.
  destruct x as [s | s | | s m e]; cbn [Py.SF_int Py.SF_Zltb]; try discriminate.
  - intros [= <-]. reflexivity.
  - set (v := if s then Z.neg m else Z.pos m).
    destruct (e <? 0) eqn:He.
    + apply Z.ltb_lt in He.
      assert (Hd : 0 < 2 ^ (- e)) by (apply pow2_pos; lia).
      destruct (v mod 2 ^ (- e) =? 0) eqn:Hm; try discriminate.
      intros [= <-]. apply Z.eqb_eq in Hm.
      pose proof (Z.div_mod v (2 ^ (- e)) ltac:(lia)) as Hv.
      rewrite Hm, Z.add_0_r in Hv.
      apply Bool.eq_true_iff_eq. rewrite !Z.ltb_lt. nia.
    + intros [= <-]. reflexivity.
Qed.

Lemma SF_int_opp (x : spec_float) (r : Z) :
  Py.SF_int x = Some r -> Py.SF_int (SFopp x) = Some (- r).
Proof.
  destruct x as [s | s | | s m e]; cbn [Py.SF_int SFopp]; try discriminate.
  - intros [= <-]. reflexivity.
  - set (v := if s then Z.neg m else Z.pos m).
    replace (if negb s then Z.neg m else Z.pos m) with (- v)
      by (subst v; destruct s; reflexivity).
    destruct (e <? 0) eqn:He.
    + apply Z.ltb_lt in He.
      assert (Hd : 0 < 2 ^ (- e)) by (apply pow2_pos; lia).
      destruct (v mod 2 ^ (- e) =? 0) eqn:Hm; try discriminate.
      intros [= <-]. apply Z.eqb_eq in Hm.
      rewrite (Z.mod_opp_l_z v (2 ^ (- e))) by lia.
      cbn [Z.eqb]. rewrite Z.div_opp_l_z by lia. reflexivity.
    + intros [= <-]. f_equal. lia.
Qed.

(** [Qtrunc] is the integer part toward zero: it lies between 0 and [q], less
    than one away from [q]. *)
Lemma Qtrunc_toward_zero (q : Q) :
  ((0 <= q -> inject_Z (Py.Qtrunc q) <= q < inject_Z (Py.Qtrunc q + 1)) /\
   (q < 0 -> inject_Z (Py.Qtrunc q - 1) < q <= inject_Z (Py.Qtrunc q)))%Q.
Proof.
  unfold Py.Qtrunc. split; intros H.
  - replace (Qnum q <? 0) with false.
    + split; [apply Qfloor_le | apply Qlt_floor].
    + symmetry. apply Z.ltb_ge. unfold Qle in H. cbn in H. lia.
  - replace (Qnum q <? 0) with true.
    + split; [apply Qceiling_lt | apply Qle_ceiling].
    + symmetry. apply Z.ltb_lt. unfold Qlt in H. cbn in H. lia.
Qed.

(** [int(x)] is the truncation of the exact value of [x]. *)
Lemma int_exact (x : float) (q : Q) :
  Py.exact x = Some q -> Py.int_ x = Some (Py.Qtrunc q).
Proof. apply SF_trunc_exact. Qed.

(** ** The frame decoder, [signal] *)

Ltac case_signal self w :=
  unfold signal;
  destruct (_marker self <? w) eqn:?;
  [ | destruct (_ch self) as [?ch|] eqn:?;
      [ destruct (lookup _ (_mapping self)) as [?a|] eqn:?;
        [ destruct (Py.int_ (scaled self w)) as [?value|] eqn:? | ] | ] ].

(** What a call of [signal] can do: nothing at all, take the channel index
    to 0, or write one axis, advance the index and ask for a [syn]. *)
Lemma signal_cases (self self' : t) (w : Z) out r :
  signal self w = Some (self', out, r) ->
  (self' = self /\ out = [] /\ r = false) \/
  (self' = set_ch self (Some 0) /\ out = [] /\ r = false) \/
  (exists ch a v, _ch self = Some ch /\ self' = set_ch self (Some (ch + 1)) /\
                  out = [write a v] /\ r = true).
Proof.
  case_signal self w; intros [= <- <- <-]; eauto 10.
Qed.

Lemma signal_shift (n : Z) (self : t) (w : Z) :
  signal (shift_lf n self) w = lift_state (shift_lf n) (signal self w).
Proof.
  unfold signal, shift_lf, scaled. destruct self as [rt lf th le ch mk mp].
  cbn [_marker _ch _mapping _rate _lf set_lf set_ch].
  destruct (mk <? w); [reflexivity|].
  destruct ch as [ch|]; [|reflexivity].
  destruct (lookup ch mp); [|reflexivity].
  destruct (Py.int_ _); reflexivity.
Qed.

(** ** The loop of [feed] *)

Lemma signal_only_writes (self self' : t) (w : Z) out r :
  signal self w = Some (self', out, r) -> only_writes out r.
Proof.
  intros H. apply signal_cases in H.
  destruct H as [(_ & -> & ->) | [(_ & -> & ->) | (ch & a & v & _ & _ & -> & ->)]];
    split; auto.
Qed.

Lemma signal_rate (self self' : t) (w : Z) out r :
  signal self w = Some (self', out, r) ->
  _rate self' = _rate self /\ _lf self' = _lf self.
Proof.
  intros H. apply signal_cases in H.
  destruct H as [(-> & _) | [(-> & _) | (ch & a & v & _ & -> & _)]];
    split; reflexivity.
Qed.

Lemma feed_step_only_writes (self self' : t) (i x : Z) out r :
  feed_step self i x = Some (self', out, r) -> only_writes out r.
Proof.
  unfold feed_step.
  destruct (_last_edge self) as [le|]; [|intros [= _ <- <-]; split; auto].
  destruct (_ && negb le).
  - destruct (_lf self) as [lf|]; [|intros [= _ <- <-]; split; auto].
    destruct (signal self (i - lf)) as [[[s o] b]|] eqn:Hs; [|discriminate].
    intros [= _ <- <-]. eapply signal_only_writes; eassumption.
  - destruct (_ && le); intros [= _ <- <-]; split; auto.
Qed.

Lemma feed_step_rate (self self' : t) (i x : Z) out r :
  feed_step self i x = Some (self', out, r) -> _rate self' = _rate self.
Proof.
  unfold feed_step.
  destruct (_last_edge self) as [le|]; [|intros [= <- _ _]; reflexivity].
  destruct (_ && negb le).
  - destruct (_lf self) as [lf|]; [|intros [= <- _ _]; reflexivity].
    destruct (signal self (i - lf)) as [[[s o] b]|] eqn:Hs; [|discriminate].
    intros [= <- _ _]. apply signal_rate in Hs. apply Hs.
  - destruct (_ && le); intros [= <- _ _]; reflexivity.
Qed.

Lemma only_writes_app out1 r1 out2 r2 :
  only_writes out1 r1 -> only_writes out2 r2 ->
  only_writes (out1 ++ out2) (r1 || r2).
Proof.
  intros [F1 ->] [F2 ->]. split.
  - apply Forall_app; auto.
  - destruct out1; reflexivity.
Qed.

Lemma feed_loop_only_writes (data : list Z) :
  forall (i : Z) (self self' : t) out r,
    feed_loop data i self = Some (self', out, r) -> only_writes out r.
Proof.
  induction data as [|x rest IH]; intros i self self' out r; cbn [feed_loop].
  - intros [= _ <- <-]. split; auto.
  - destruct (feed_step self i x) as [[[s1 o1] r1]|] eqn:H1; [|discriminate].
    destruct (feed_loop rest (i + 1) s1) as [[[s2 o2] r2]|] eqn:H2;
      [|discriminate].
    intros [= _ <- <-]. apply only_writes_app.
    + eapply feed_step_only_writes; eassumption.
    + eapply IH; eassumption.
Qed.

Lemma feed_loop_rate (data : list Z) :
  forall (i : Z) (self self' : t) out r,
    feed_loop data i self = Some (self', out, r) -> _rate self' = _rate self.
Proof.
  induction data as [|x rest IH]; intros i self self' out r; cbn [feed_loop].
  - intros [= <- _ _]. reflexivity.
  - destruct (feed_step self i x) as [[[s1 o1] r1]|] eqn:H1; [|discriminate].
    destruct (feed_loop rest (i + 1) s1) as [[[s2 o2] r2]|] eqn:H2;
      [|discriminate].
    intros [= <- _ _]. rewrite (IH _ _ _ _ _ H2). eapply feed_step_rate; eassumption.
Qed.

(** The loop over a concatenation is the loop over its first part followed
    by the loop over its second part, the index running on. *)
Lemma feed_loop_app (b1 b2 : list Z) :
  forall (i : Z) (self : t),
    feed_loop (b1 ++ b2) i self =
    match feed_loop b1 i self with
    | None => None
    | Some (self1, out1, r1) =>
        match feed_loop b2 (i + Z.of_nat (List.length b1)) self1 with
        | None => None
        | Some (self2, out2, r2) => Some (self2, out1 ++ out2, r1 || r2)
        end
    end.
Proof.
  induction b1 as [|x rest IH]; intros i self.
  - cbn [app feed_loop List.length Z.of_nat]. rewrite Z.add_0_r.
    destruct (feed_loop b2 i self) as [[[s o] r]|]; reflexivity.
  - cbn [app feed_loop]. destruct (feed_step self i x) as [[[s1 o1] r1]|];
      [|reflexivity].
    rewrite IH. destruct (feed_loop rest (i + 1) s1) as [[[s2 o2] r2]|];
      [|reflexivity].
    replace (i + Z.of_nat (List.length (x :: rest)))
      with (i + 1 + Z.of_nat (List.length rest))
      by (cbn [List.length]; lia).
    destruct (feed_loop b2 _ s2) as [[[s3 o3] r3]|]; [|reflexivity].
    rewrite app_assoc, orb_assoc. reflexivity.
Qed.

(** The loop only looks at the distance from the falling edge to the
    current index: moving both by [n] moves the result by [n]. *)
Lemma feed_step_shift (n : Z) (self : t) (i x : Z) :
  feed_step (shift_lf n self) (i + n) x =
  lift_state (shift_lf n) (feed_step self i x).
Proof.
  unfold feed_step.
  replace (_threshold (shift_lf n self)) with (_threshold self) by reflexivity.
  replace (_last_edge (shift_lf n self)) with (_last_edge self) by reflexivity.
  destruct (_last_edge self) as [le|] eqn:Hle.
  - destruct (_ && negb le).
    + replace (_lf (shift_lf n self))
        with (option_map (fun lf => lf + n) (_lf self)) by reflexivity.
      destruct (_lf self) as [lf|] eqn:Hlf; cbn [option_map].
      * replace (i + n - (lf + n)) with (i - lf) by lia.
        rewrite signal_shift.
        destruct (signal self (i - lf)) as [[[s o] b]|]; reflexivity.
      * unfold lift_state, shift_lf; cbn. rewrite Hlf. reflexivity.
    + destruct (_ && le); unfold lift_state, shift_lf; cbn; reflexivity.
  - unfold lift_state, shift_lf; cbn. reflexivity.
Qed.

Lemma feed_loop_shift (n : Z) (data : list Z) :
  forall (i : Z) (self : t),
    feed_loop data (i + n) (shift_lf n self) =
    lift_state (shift_lf n) (feed_loop data i self).
Proof.
  induction data as [|x rest IH]; intros i self; cbn [feed_loop].
  - reflexivity.
  - rewrite feed_step_shift.
    destruct (feed_step self i x) as [[[s1 o1] r1]|]; [|reflexivity].
    cbn [lift_state option_map].
    replace (i + n + 1) with (i + 1 + n) by lia. rewrite IH.
    destruct (feed_loop rest (i + 1) s1) as [[[s2 o2] r2]|]; reflexivity.
Qed.

(** ** The frame decoder on sync gaps and on dropped pulses *)

(** C1, as amended: for every pulse width [w] strictly greater than the
    marker width, whatever the state before, [signal] takes the channel index
    to 0, writes no axis and asks for no [syn]. *)
Theorem signal_sync_gap (self : t) (w : Z) :
  _marker self < w ->
  signal self w = Some (set_ch self (Some 0), [], false).
Proof.
  intros H. unfold signal. apply Z.ltb_lt in H. rewrite H. reflexivity.
Qed.

Lemma signal_sync_gap_witness :
  _marker (synced 44100 2) < 221 /\
  signal (synced 44100 2) 221 = Some (synced 44100 0, [], false).
Proof.
  split; [vm_compute; reflexivity|].
  apply (signal_sync_gap (synced 44100 2) 221). vm_compute. reflexivity.
Defined.

(** C1, as stated, fails at [w] equal to the marker width: at 44100 Hz the
    marker is 220 samples, and a pulse of 220 samples that arrives on channel
    0 is decoded as a channel pulse: one axis write, a [syn] asked for, the
    index taken to 1. *)
Lemma signal_at_marker_width :
  _marker (synced 44100 0) = 220 /\
  signal (synced 44100 0) 220
  = Some (synced 44100 1, [write ABS_X 1093], true) /\
  ~ (forall (self : t) (w : Z),
        _marker self <= w ->
        signal self w = Some (set_ch self (Some 0), [], false)).
Proof.
  assert (E : signal (synced 44100 0) 220
              = Some (synced 44100 1, [write ABS_X 1093], true))
    by (vm_compute; reflexivity).
  split; [vm_compute; reflexivity|]. split; [exact E|].
  intros H. specialize (H (synced 44100 0) 220).
  rewrite E in H. discriminate H. vm_compute. discriminate.
Qed.

Lemma lookup_mapping_out_of_range (k : Z) :
  Z.of_nat (List.length mapping) <= k -> lookup k mapping = None.
Proof.
  cbn. intros H.
  repeat match goal with
         | |- context [k =? ?c] => destruct (Z.eqb_spec k c); [lia|]
         end.
  reflexivity.
Qed.

(** C7: a channel pulse (width below the marker width) that arrives while the
    decoder is unsynchronised, or while the channel index is past the
    channels of the mapping, writes no axis, asks for no [syn] and leaves the
    decoder as it was. *)
Theorem signal_pulse_dropped (self : t) (w : Z) :
  w < _marker self ->
  _ch self = None \/
  (exists k, _ch self = Some k /\ _mapping self = mapping /\
             Z.of_nat (List.length mapping) <= k) ->
  signal self w = Some (self, [], false).
Proof.
  intros Hw Hch. unfold signal.
  destruct (Z.ltb_spec (_marker self) w); [lia|].
  destruct Hch as [-> | (k & -> & -> & Hk)]; [reflexivity|].
  rewrite lookup_mapping_out_of_range by exact Hk. reflexivity.
Qed.

Lemma signal_pulse_dropped_witness :
  signal (fresh 44100) 40 = Some (fresh 44100, [], false) /\
  signal (synced 44100 4) 40 = Some (synced 44100 4, [], false).
Proof.
  split.
  - apply (signal_pulse_dropped (fresh 44100) 40).
    + vm_compute. reflexivity.
    + left. vm_compute. reflexivity.
  - apply (signal_pulse_dropped (synced 44100 4) 40).
    + vm_compute. reflexivity.
    + right. exists 4. repeat split; vm_compute; congruence.
Defined.

(** ** The value written for a channel pulse *)

(** C2, as amended: for a channel pulse (width at most the marker width)
    decoded on a channel [k] of the mapping, the value written to the axis of
    [k] is [(w / rate - 0.0007) * 1000 * 255], computed in binary64 and
    truncated toward zero, as [int()] does; the index moves to [k + 1] and a
    [syn] is asked for. *)
Theorem signal_value_truncated (self : t) (w k : Z) (a : axis) (q : Q) :
  w <= _marker self ->
  _ch self = Some k ->
  lookup k (_mapping self) = Some a ->
  Py.exact (scaled self w) = Some q ->
  signal self w
  = Some (set_ch self (Some (k + 1)), [write a (Py.Qtrunc q)], true).
Proof.
  intros Hw Hch Ha Hq. unfold signal.
  destruct (Z.ltb_spec (_marker self) w); [lia|].
  rewrite Hch, Ha, (int_exact _ _ Hq). reflexivity.
Qed.

Lemma signal_value_truncated_witness :
  signal (synced 44100 0) 40 = Some (synced 44100 1, [write ABS_X 52], true).
Proof.
  apply (signal_value_truncated (synced 44100 0) 40 0 ABS_X
           (7429886247493356 # 140737488355328));
    vm_compute; congruence.
Defined.

(** C2, as stated, fails: at 44100 Hz a pulse of 40 samples on channel 0 has
    [(40 / 44100 - 0.0007) * 1000 * 255 = 52.79...]; rounding to the nearest
    integer gives 53, in binary64 and in the rationals alike, and the decoder
    writes 52. *)
Lemma signal_value_not_rounded :
  40 < _marker (synced 44100 0) /\
  lookup 0 (_mapping (synced 44100 0)) = Some ABS_X /\
  signal (synced 44100 0) 40
  = Some (synced 44100 1, [write ABS_X 52], true) /\
  rounded_value (synced 44100 0) 40 = Some 53 /\
  rounded_value_Q 44100 40 = 53.
Proof. repeat split; vm_compute; reflexivity. Qed.

(** ** Construction *)

Lemma init_fields (rate : Z) (self : t) out :
  __init__ rate = Some (self, out) ->
  _rate self = Py.float_ rate /\ _lf self = None /\ _threshold self = 15000 /\
  _last_edge self = None /\ _ch self = None /\ _mapping self = mapping.
Proof.
  unfold __init__. destruct (Py.int_ _); [|discriminate].
  intros [= <- _]. repeat split.
Qed.

(** C3, as amended: the construction of a decoder creates the device once,
    with one [EV_ABS] entry for every axis of the channel mapping, in the
    order of the mapping, each with the tuple (0, 5, 255, 0), which evdev
    reads as value 0, minimum 5, maximum 255 and fuzz 0, and with one button,
    288. *)
Theorem init_declares_device (rate : Z) (self : t) out :
  __init__ rate = Some (self, out) ->
  exists ev_abs,
    out = [UInput "ppmadapter" ev_abs [(288, "BTN_JOYSTICK"%string)]] /\
    count is_UInput out = 1%nat /\
    map fst ev_abs = map snd (_mapping self) /\
    Forall (fun e => snd e = (0, 5, 255, 0) /\
                     abs_min (absinfo (snd e)) = 5 /\
                     abs_max (absinfo (snd e)) = 255) ev_abs.
Proof.
  intros H. destruct (init_fields _ _ _ H) as (_ & _ & _ & _ & _ & ->).
  revert H. unfold __init__. destruct (Py.int_ _); [|discriminate].
  intros [= _ <-]. eexists. split; [reflexivity|].
  split; [reflexivity|]. split; [reflexivity|].
  repeat constructor.
Qed.

Lemma init_declares_device_witness :
  exists ev_abs,
    [UInput "ppmadapter"
       [(ABS_X, (0, 5, 255, 0)); (ABS_Y, (0, 5, 255, 0));
        (ABS_Z, (0, 5, 255, 0)); (ABS_THROTTLE, (0, 5, 255, 0))]
       [(288, "BTN_JOYSTICK"%string)]]
    = [UInput "ppmadapter" ev_abs [(288, "BTN_JOYSTICK"%string)]] /\
    count is_UInput
      [UInput "ppmadapter"
         [(ABS_X, (0, 5, 255, 0)); (ABS_Y, (0, 5, 255, 0));
          (ABS_Z, (0, 5, 255, 0)); (ABS_THROTTLE, (0, 5, 255, 0))]
         [(288, "BTN_JOYSTICK"%string)]] = 1%nat /\
    map fst ev_abs = map snd (_mapping (fresh 44100)) /\
    Forall (fun e => snd e = (0, 5, 255, 0) /\
                     abs_min (absinfo (snd e)) = 5 /\
                     abs_max (absinfo (snd e)) = 255) ev_abs.
Proof.
  apply (init_declares_device 44100 (fresh 44100)). vm_compute. reflexivity.
Defined.

(** C3, as stated, fails: the tuple declared for an axis is (0, 5, 255, 0).
    Read as evdev's [AbsInfo] it gives the range 5 to 255; read as
    (min, max, fuzz, flat) it gives 0 to 5.  Neither is 0 to 255. *)
Lemma init_axis_range_not_0_255 :
  exists self keys,
    __init__ 44100
    = Some (self,
            [UInput "ppmadapter"
               [(ABS_X, (0, 5, 255, 0)); (ABS_Y, (0, 5, 255, 0));
                (ABS_Z, (0, 5, 255, 0)); (ABS_THROTTLE, (0, 5, 255, 0))]
               keys]) /\
    abs_min (absinfo (0, 5, 255, 0)) = 5 /\
    abs_max (absinfo (0, 5, 255, 0)) = 255 /\
    abs_min (absinfo_legacy (0, 5, 255, 0)) = 0 /\
    abs_max (absinfo_legacy (0, 5, 255, 0)) = 5 /\
    (abs_min (absinfo (0, 5, 255, 0)), abs_max (absinfo (0, 5, 255, 0)))
    <> (0, 255) /\
    (abs_min (absinfo_legacy (0, 5, 255, 0)),
     abs_max (absinfo_legacy (0, 5, 255, 0))) <> (0, 255).
Proof.
  exists (fresh 44100), [(288, "BTN_JOYSTICK"%string)].
  repeat split; try (vm_compute; reflexivity); vm_compute; discriminate.
Qed.

(** ** The first sample *)

Lemma feed_step_first (self : t) (i x : Z) :
  _last_edge self = None ->
  feed_step self i x
  = Some (set_last_edge self (Some (_threshold self <? x)), [], false).
Proof. intros H. unfold feed_step. rewrite H. reflexivity. Qed.

(** C10: on the first block fed after the construction, the first sample
    only sets the persisted level: whatever its value, the turn of the loop
    at index 0 calls neither [signal] nor the device and changes nothing
    else, and the loop goes on from index 1 with that level. *)
Theorem first_sample_sets_level (rate : Z) (self : t) out0 (x : Z)
  (rest : list Z) :
  __init__ rate = Some (self, out0) ->
  feed_step self 0 x
  = Some (set_last_edge self (Some (15000 <? x)), [], false) /\
  feed_loop (x :: rest) 0 self
  = feed_loop rest 1 (set_last_edge self (Some (15000 <? x))) /\
  feed self [x] = Some (set_last_edge self (Some (15000 <? x)), []).
Proof.
  intros H. destruct (init_fields _ _ _ H) as (_ & Hlf & Hth & Hle & _ & _).
  assert (E : feed_step self 0 x
              = Some (set_last_edge self (Some (15000 <? x)), [], false))
    by (rewrite feed_step_first, Hth by exact Hle; reflexivity).
  split; [exact E|]. split.
  - cbn [feed_loop]. rewrite E. cbn [Z.add].
    destruct (feed_loop rest 1 _) as [[[s o] r]|]; reflexivity.
  - unfold feed, feed_end. cbn [feed_loop]. rewrite E.
    cbn [_lf set_last_edge app orb]. rewrite Hlf. reflexivity.
Qed.

Lemma first_sample_sets_level_witness :
  feed_step (fresh 44100) 0 high
  = Some (set_last_edge (fresh 44100) (Some (15000 <? high)), [], false) /\
  feed_loop [high; low; high] 0 (fresh 44100)
  = feed_loop [low; high] 1
      (set_last_edge (fresh 44100) (Some (15000 <? high))) /\
  feed (fresh 44100) [high]
  = Some (set_last_edge (fresh 44100) (Some (15000 <? high)), []).
Proof.
  apply (first_sample_sets_level 44100 (fresh 44100)
           [UInput "ppmadapter"
              [(ABS_X, (0, 5, 255, 0)); (ABS_Y, (0, 5, 255, 0));
               (ABS_Z, (0, 5, 255, 0)); (ABS_THROTTLE, (0, 5, 255, 0))]
              [(288, "BTN_JOYSTICK"%string)]] high [low; high]).
  vm_compute. reflexivity.
Defined.

(** ** The end of [feed]: the batched [syn] and the sync-loss guard *)

Lemma feed_unfold (self self1 : t) (data : list Z) out r :
  feed_loop data 0 self = Some (self1, out, r) ->
  feed self data = Some (feed_end self1 (Z.of_nat (List.length data)) out r).
Proof. intros H. unfold feed. rewrite H. reflexivity. Qed.

Lemma feed_inv (self self' : t) (data : list Z) out' :
  feed self data = Some (self', out') ->
  exists self1 out r,
    feed_loop data 0 self = Some (self1, out, r) /\
    feed_end self1 (Z.of_nat (List.length data)) out r = (self', out').
Proof.
  unfold feed. destruct (feed_loop data 0 self) as [[[s o] r]|];
    [|discriminate].
  intros [= H]. eauto.
Qed.

(** With an exact sample rate the sync-loss test is the comparison of
    integers [lf < - rate]. *)
Lemma lost_sync_spec (self : t) (rate lf : Z) :
  sample_rate self rate -> lost_sync self lf = (lf <? - rate).
Proof.
  intros H. unfold lost_sync, Py.int_lt_float. rewrite opp_spec.
  apply SF_Zltb_int, SF_int_opp, H.
Qed.

Lemma set_lf_rate (self : t) (v : option Z) (rate : Z) :
  sample_rate self rate -> sample_rate (set_lf self v) rate.
Proof. exact (fun H => H). Qed.

(** C4: at the end of every [feed], once the offset of the pending falling
    edge has been diminished by the block length: if that offset is defined
    and strictly smaller than minus the sample rate, the decoder returns
    unsynchronised with the offset unset; otherwise the channel index is the
    one the loop left and the offset is the diminished one. *)
Theorem feed_sync_loss_guard (rate : Z) (self self1 : t) (data : list Z)
  out r :
  sample_rate self rate ->
  feed_loop data 0 self = Some (self1, out, r) ->
  exists self' out',
    feed self data = Some (self', out') /\
    match _lf self1 with
    | Some lf =>
        if lf - Z.of_nat (List.length data) <? - rate
        then _ch self' = None /\ _lf self' = None
        else _ch self' = _ch self1 /\
             _lf self' = Some (lf - Z.of_nat (List.length data))
    | None => _ch self' = _ch self1 /\ _lf self' = None
    end.
Proof.
  intros Hr Hl. rewrite (feed_unfold _ _ _ _ _ Hl).
  assert (Hr1 : sample_rate self1 rate)
    by (unfold sample_rate; rewrite (feed_loop_rate _ _ _ _ _ _ Hl); exact Hr).
  unfold feed_end. destruct (_lf self1) as [lf|] eqn:Hlf.
  - rewrite (lost_sync_spec _ rate) by (apply set_lf_rate, Hr1).
    destruct (_ <? - rate); eexists _, _; split; try reflexivity; split;
      reflexivity.
  - eexists _, _. split; [reflexivity|]. split; [reflexivity | exact Hlf].
Qed.

Lemma feed_sync_loss_guard_witness :
  exists self' out',
    feed (fresh 8000) (high :: lows 8002) = Some (self', out') /\
    _ch self' = None /\ _lf self' = None.
Proof.
  destruct (feed_sync_loss_guard 8000 (fresh 8000)
              (set_last_edge (set_lf (fresh 8000) (Some 1)) (Some false))
              (high :: lows 8002) [] false)
    as (self' & out' & Hf & Hg).
  - vm_compute. reflexivity.
  - vm_compute. reflexivity.
  - exists self', out'. split; [exact Hf | exact Hg].
Defined.

Lemma only_writes_count (out : list uinput_call) (r : bool) :
  only_writes out r ->
  count is_syn out = 0%nat /\ count is_UInput out = 0%nat /\
  count is_write out = List.length out.
Proof.
  intros [F _]. unfold count. induction F as [|c out Hc F IH]; [auto|].
  destruct c; try discriminate. cbn. destruct IH as (-> & -> & ->). auto.
Qed.

Lemma count_app (p : uinput_call -> bool) (o1 o2 : list uinput_call) :
  count p (o1 ++ o2) = (count p o1 + count p o2)%nat.
Proof. unfold count. rewrite filter_app, length_app. reflexivity. Qed.

(** C5: for every block fed, [syn] is called at most once, and it is called
    if and only if at least one axis write was made while the block was
    processed. *)
Theorem feed_syn_once (self self' : t) (data : list Z) out :
  feed self data = Some (self', out) ->
  (count is_syn out <= 1)%nat /\
  (count is_syn out = 1%nat <-> (1 <= count is_write out)%nat).
Proof.
  intros H. apply feed_inv in H. destruct H as (s1 & o & r & Hl & He).
  pose proof (feed_loop_only_writes _ _ _ _ _ _ Hl) as Ho.
  destruct (only_writes_count _ _ Ho) as (Hs & _ & Hw).
  assert (out = if r then o ++ [syn] else o) as ->.
  { revert He. unfold feed_end. destruct (_lf s1); [destruct (lost_sync _ _)|];
      intros [= _ <-]; reflexivity. }
  destruct Ho as [_ ->]. destruct o as [|c o].
  - cbn. lia.
  - rewrite !count_app, Hs, Hw. cbn. lia.
Qed.

Lemma feed_syn_once_witness :
  (count is_syn [write ABS_X 52; syn] <= 1)%nat /\
  (count is_syn [write ABS_X 52; syn] = 1%nat <->
   (1 <= count is_write [write ABS_X 52; syn])%nat).
Proof.
  apply (feed_syn_once
           (set_lf (set_last_edge (synced 44100 0) (Some false)) (Some (- 30)))
           (set_lf (set_last_edge (synced 44100 1) (Some true)) (Some (- 41)))
           (lows 10 ++ [high])).
  vm_compute. reflexivity.
Defined.

(** ** Invariants of the falling-edge offset *)

Lemma feed_step_lf (self self' : t) (i x : Z) out r :
  feed_step self i x = Some (self', out, r) ->
  _lf self' = _lf self \/ _lf self' = Some i.
Proof.
  unfold feed_step.
  destruct (_last_edge self) as [le|]; [|intros [= <- _ _]; auto].
  destruct (_ && negb le).
  - destruct (_lf self) as [lf|] eqn:Hlf; [|intros [= <- _ _]; auto].
    destruct (signal self (i - lf)) as [[[s o] b]|] eqn:Hs; [|discriminate].
    intros [= <- _ _]. apply signal_rate in Hs. left.
    cbn [_lf set_last_edge]. rewrite <- Hlf. apply Hs.
  - destruct (_ && le); intros [= <- _ _]; auto.
Qed.

(** After the loop the offset is the one it started with, or an index of
    the block. *)
Lemma feed_loop_lf (data : list Z) :
  forall (i : Z) (self self' : t) out r,
    feed_loop data i self = Some (self', out, r) ->
    _lf self' = _lf self \/
    exists j, _lf self' = Some j /\ i <= j < i + Z.of_nat (List.length data).
Proof.
  induction data as [|x rest IH]; intros i self self' out r; cbn [feed_loop].
  - intros [= <- _ _]. auto.
  - destruct (feed_step self i x) as [[[s1 o1] r1]|] eqn:H1; [|discriminate].
    destruct (feed_loop rest (i + 1) s1) as [[[s2 o2] r2]|] eqn:H2;
      [|discriminate].
    intros [= <- _ _]. cbn [List.length]. rewrite Nat2Z.inj_succ.
    destruct (IH _ _ _ _ _ H2) as [E | (j & E & Hj)].
    + rewrite E. destruct (feed_step_lf _ _ _ _ _ _ H1) as [E1 | E1].
      * auto.
      * right. exists i. split; [exact E1 | lia].
    + right. exists j. split; [exact E | lia].
Qed.

Lemma feed_rate (self self' : t) (data : list Z) out :
  feed self data = Some (self', out) -> _rate self' = _rate self.
Proof.
  intros H. apply feed_inv in H. destruct H as (s1 & o & r & Hl & He).
  rewrite <- (feed_loop_rate _ _ _ _ _ _ Hl).
  revert He. unfold feed_end.
  destruct (_lf s1); [destruct (lost_sync _ _)|]; intros [= <- _]; reflexivity.
Qed.

Lemma reachable_rate (rate : Z) (self : t) :
  reachable rate self -> _rate self = Py.float_ rate.
Proof.
  induction 1 as [self out H | self data self' out _ IH H].
  - apply (init_fields _ _ _ H).
  - rewrite (feed_rate _ _ _ _ H). exact IH.
Qed.

Lemma feed_lf_fresh (self self' : t) (data : list Z) out :
  feed self data = Some (self', out) -> lf_fresh self'.
Proof.
  intros H. apply feed_inv in H. destruct H as (s1 & o & r & _ & He).
  revert He. unfold feed_end, lf_fresh.
  destruct (_lf s1) as [lf|] eqn:Hlf.
  - destruct (lost_sync _ _) eqn:Hg; intros [= <- _]; [exact I | exact Hg].
  - intros [= <- _]. rewrite Hlf. exact I.
Qed.

Lemma reachable_lf_fresh (rate : Z) (self : t) :
  reachable rate self -> lf_fresh self.
Proof.
  destruct 1 as [self out H | self data self' out _ H].
  - unfold lf_fresh. destruct (init_fields _ _ _ H) as (_ & -> & _). exact I.
  - eapply feed_lf_fresh; eassumption.
Qed.

Lemma set_lf_same (self : t) : set_lf self (_lf self) = self.
Proof. destruct self; reflexivity. Qed.

(** C8: feeding an empty block does nothing: no axis write, no [syn], and the
    decoder (persisted level, falling-edge offset, channel index) as it
    was. *)
Theorem feed_empty (rate : Z) (self : t) :
  reachable rate self -> feed self [] = Some (self, []).
Proof.
  intros H. apply reachable_lf_fresh in H. unfold lf_fresh in H.
  unfold feed, feed_end. cbn [feed_loop List.length Z.of_nat].
  destruct (_lf self) as [lf|] eqn:Hlf; [|reflexivity].
  rewrite Z.sub_0_r.
  replace (lost_sync (set_lf self (Some lf)) lf) with (lost_sync self lf)
    by reflexivity.
  rewrite H, <- Hlf, set_lf_same. reflexivity.
Qed.

Lemma feed_empty_witness :
  feed (set_lf (set_last_edge (fresh 44100) (Some false)) (Some (- 2))) []
  = Some (set_lf (set_last_edge (fresh 44100) (Some false)) (Some (- 2)), []).
Proof.
  apply (feed_empty 44100).
  apply (reach_feed 44100 (fresh 44100) [high; low; low] _ []).
  - apply (reach_init 44100 (fresh 44100)
             [UInput "ppmadapter"
                [(ABS_X, (0, 5, 255, 0)); (ABS_Y, (0, 5, 255, 0));
                 (ABS_Z, (0, 5, 255, 0)); (ABS_THROTTLE, (0, 5, 255, 0))]
                [(288, "BTN_JOYSTICK"%string)]]).
    vm_compute. reflexivity.
  - vm_compute. reflexivity.
Defined.

Lemma feed_lf_bounded (rate : Z) (self self' : t) (data : list Z) out :
  sample_rate self rate -> lf_bounded rate self ->
  feed self data = Some (self', out) -> lf_bounded rate self'.
Proof.
  intros Hr Hb H. apply feed_inv in H. destruct H as (s1 & o & r & Hl & He).
  assert (Hr1 : sample_rate s1 rate)
    by (unfold sample_rate; rewrite (feed_loop_rate _ _ _ _ _ _ Hl); exact Hr).
  pose proof (feed_loop_lf _ _ _ _ _ _ Hl) as Hlf.
  revert He. unfold feed_end, lf_bounded in *.
  destruct (_lf s1) as [lf|] eqn:E.
  - rewrite (lost_sync_spec _ rate) by (apply set_lf_rate, Hr1).
    destruct (Z.ltb_spec (lf - Z.of_nat (List.length data)) (- rate));
      intros [= <- _]; cbn [_lf set_lf set_ch]; [exact I|].
    destruct Hlf as [E' | (j & [= ->] & Hj)].
    + rewrite <- E' in Hb. lia.
    + lia.
  - intros [= <- _]. rewrite E. exact I.
Qed.

(** C9: in every state the decoder reaches, from its construction on, the
    offset of the pending falling edge is unset or an integer from minus the
    sample rate to -1; every [feed] keeps it so. *)
Theorem lf_bounded_invariant (rate : Z) (self : t) :
  exact_rate rate ->
  reachable rate self ->
  lf_bounded rate self /\
  forall (data : list Z) (self' : t) out,
    feed self data = Some (self', out) -> lf_bounded rate self'.
Proof.
  intros Hx H.
  assert (Hb : lf_bounded rate self).
  { induction H as [self out H | self data self' out H0 IH H].
    - unfold lf_bounded. destruct (init_fields _ _ _ H) as (_ & -> & _).
      exact I.
    - apply (feed_lf_bounded rate self self' data out); auto.
      unfold sample_rate. rewrite (reachable_rate _ _ H0). exact Hx. }
  split; [exact Hb|]. intros data self' out Hf.
  apply (feed_lf_bounded rate self self' data out); auto.
  unfold sample_rate. rewrite (reachable_rate _ _ H). exact Hx.
Qed.

Lemma lf_bounded_invariant_witness :
  lf_bounded 44100
    (set_lf (set_last_edge (fresh 44100) (Some false)) (Some (- 2))) /\
  forall (data : list Z) (self' : t) out,
    feed (set_lf (set_last_edge (fresh 44100) (Some false)) (Some (- 2))) data
    = Some (self', out) ->
    lf_bounded 44100 self'.
Proof.
  apply (lf_bounded_invariant 44100).
  - vm_compute. reflexivity.
  - apply (reach_feed 44100 (fresh 44100) [high; low; low] _ []).
    + apply (reach_init 44100 (fresh 44100)
               [UInput "ppmadapter"
                  [(ABS_X, (0, 5, 255, 0)); (ABS_Y, (0, 5, 255, 0));
                   (ABS_Z, (0, 5, 255, 0)); (ABS_THROTTLE, (0, 5, 255, 0))]
                  [(288, "BTN_JOYSTICK"%string)]]).
      vm_compute. reflexivity.
    + vm_compute. reflexivity.
Defined.

(** ** A pulse split over two blocks *)

Lemma shift_lf_unset (n : Z) (self : t) :
  _lf self = None -> shift_lf n self = self.
Proof.
  intros H. unfold shift_lf. rewrite H. cbn [option_map]. rewrite <- H.
  apply set_lf_same.
Qed.

Lemma writes_flagged (out : list uinput_call) (r : bool) :
  writes (if r then out ++ [syn] else out) = writes out.
Proof.
  destruct r; [|reflexivity]. unfold writes. rewrite filter_app.
  apply app_nil_r.
Qed.

Lemma feed_end_out (self : t) (len : Z) out r :
  writes (snd (feed_end self len out r)) = writes out.
Proof.
  unfold feed_end. destruct (_lf self); [destruct (lost_sync _ _)|];
    apply writes_flagged.
Qed.

(** When the guard does not fire, the end of [feed] only moves the offset
    back by the block length. *)
Lemma feed_end_carries (self : t) (len : Z) out r :
  match _lf self with
  | Some lf => lost_sync self (lf - len) = false
  | None => True
  end ->
  fst (feed_end self len out r) = shift_lf (- len) self.
Proof.
  unfold feed_end. destruct (_lf self) as [lf|] eqn:Hlf.
  - intros H.
    replace (lost_sync (set_lf self (Some (lf - len))) (lf - len))
      with (lost_sync self (lf - len)) by reflexivity.
    rewrite H. unfold shift_lf. rewrite Hlf. reflexivity.
  - intros _. rewrite shift_lf_unset by exact Hlf. reflexivity.
Qed.

(** The end of [feed] on an offset counted from [n] samples earlier. *)
Lemma feed_end_shift (self : t) (n len : Z) out r out' r' :
  fst (feed_end (shift_lf (- n) self) len out r)
  = fst (feed_end self (n + len) out' r').
Proof.
  unfold feed_end, shift_lf. destruct self as [rt lf th le ch mk mp].
  cbn [_lf set_lf option_map]. destruct lf as [lf|]; [|reflexivity].
  cbn [option_map]. replace (lf + - n - len) with (lf - (n + len)) by lia.
  unfold lost_sync. cbn [_rate set_lf].
  destruct (Py.int_lt_float _ _); reflexivity.
Qed.

(** C6, as amended: when the sync-loss guard does not fire at the end of the
    first block, feeding two blocks one after the other leaves the decoder
    in the same state, and makes the same axis writes with the same values,
    as feeding their concatenation; so a pulse that falls in the first block
    and rises in the second is measured, and decoded, as in one block. *)
Theorem feed_split (self : t) (b1 b2 : list Z) :
  carries_over self b1 = true ->
  observed (feed_twice self b1 b2) = observed (feed self (b1 ++ b2)).
Proof.
  unfold carries_over, feed_twice. intros Hc.
  set (n1 := Z.of_nat (List.length b1)) in *.
  unfold feed at 1 3. rewrite feed_loop_app.
  destruct (feed_loop b1 0 self) as [[[s1 o1] r1]|] eqn:H1; [|reflexivity].
  fold n1. cbn [Z.add].
  assert (E1 : fst (feed_end s1 n1 o1 r1) = shift_lf (- n1) s1).
  { apply feed_end_carries. destruct (_lf s1); [|exact I].
    apply negb_true_iff, Hc. }
  pose proof (feed_end_out s1 n1 o1 r1) as W1.
  destruct (feed_end s1 n1 o1 r1) as [s1' o1']. cbn [fst snd] in E1, W1.
  subst s1'. unfold feed.
  replace 0 with (n1 + - n1) by lia. rewrite feed_loop_shift.
  destruct (feed_loop b2 n1 s1) as [[[s2 o2] r2]|]; [|reflexivity].
  cbn [lift_state option_map observed]. rewrite length_app, Nat2Z.inj_add.
  fold n1. set (n2 := Z.of_nat (List.length b2)).
  pose proof (feed_end_shift s2 n1 n2 o2 r2 (o1 ++ o2) (r1 || r2)) as E2.
  pose proof (feed_end_out (shift_lf (- n1) s2) n2 o2 r2) as W2.
  pose proof (feed_end_out s2 (n1 + n2) (o1 ++ o2) (r1 || r2)) as W12.
  destruct (feed_end (shift_lf (- n1) s2) n2 o2 r2) as [sa oa].
  destruct (feed_end s2 (n1 + n2) (o1 ++ o2) (r1 || r2)) as [sb ob].
  cbn [fst snd] in *. subst sa. cbn [observed option_map]. f_equal. f_equal.
  rewrite W12. unfold writes in *. rewrite !filter_app, W1, W2. reflexivity.
Qed.

Lemma feed_split_witness :
  observed (feed_twice (synced 44100 0) ([high; low] ++ lows 20)
              (lows 20 ++ [high]))
  = observed (feed (synced 44100 0)
                (([high; low] ++ lows 20) ++ lows 20 ++ [high])).
Proof.
  apply (feed_split (synced 44100 0) ([high; low] ++ lows 20)
           (lows 20 ++ [high])).
  vm_compute. reflexivity.
Defined.

(** C6, as stated, fails when the first block ends more than [rate] samples
    after the falling edge.  At 8000 Hz: a first block that falls at index 1
    and stays low for 8002 samples, then a block that rises at once, falls
    and rises again 12 samples later.  In one block the first pulse measures
    8002 samples, a sync gap, and the second is written to the first axis.
    Fed apart, the guard clears the offset at the end of the first block, no
    width is measured at the rise, and the decoder stays unsynchronised. *)
Lemma feed_split_lost :
  carries_over (fresh 8000) (high :: lows 8002) = false /\
  observed (feed_twice (fresh 8000) (high :: lows 8002)
              ([high] ++ lows 12 ++ [high]))
  = Some (set_lf (set_last_edge (fresh 8000) (Some true)) (Some (- 13)), []) /\
  observed (feed (fresh 8000)
              ((high :: lows 8002) ++ [high] ++ lows 12 ++ [high]))
  = Some (set_lf (set_last_edge (synced 8000 1) (Some true)) (Some (- 13)),
          [write ABS_X 204]) /\
  observed (feed_twice (fresh 8000) (high :: lows 8002)
              ([high] ++ lows 12 ++ [high]))
  <> observed (feed (fresh 8000)
                 ((high :: lows 8002) ++ [high] ++ lows 12 ++ [high])).
Proof.
  repeat split; try (vm_compute; reflexivity). vm_compute. discriminate.
Qed.

(** ** What [feed] leaves alone *)

Lemma same_config_refl (a : t) : same_config a a.
Proof. repeat split. Qed.

Lemma same_config_trans (a b c : t) :
  same_config a b -> same_config b c -> same_config a c.
Proof.
  unfold same_config. intros (-> & -> & -> & ->) (-> & -> & -> & ->).
  repeat split.
Qed.

Lemma signal_config (self self' : t) (w : Z) out r :
  signal self w = Some (self', out, r) ->
  same_config self' self /\ _last_edge self' = _last_edge self.
Proof.
  intros H. apply signal_cases in H.
  destruct H as [(-> & _) | [(-> & _) | (ch & a & v & _ & -> & _)]];
    repeat split.
Qed.

Lemma feed_step_config (self self' : t) (i x : Z) out r :
  feed_step self i x = Some (self', out, r) ->
  same_config self' self /\
  _last_edge self' = Some (_threshold self <? x).
Proof.
  unfold feed_step.
  destruct (_last_edge self) as [le|]; [|intros [= <- _ _]; repeat split].
  destruct (_ && negb le).
  - destruct (_lf self) as [lf|]; [|intros [= <- _ _]; repeat split].
    destruct (signal self (i - lf)) as [[[s o] b]|] eqn:Hs; [|discriminate].
    intros [= <- _ _]. apply signal_config in Hs. destruct Hs as [Hc _].
    split; [exact Hc | reflexivity].
  - destruct (_ && le); intros [= <- _ _]; repeat split.
Qed.

Lemma feed_loop_config (data : list Z) :
  forall (i : Z) (self self' : t) out r,
    feed_loop data i self = Some (self', out, r) ->
    same_config self' self /\
    _last_edge self'
    = match data with
      | [] => _last_edge self
      | _ :: _ => Some (_threshold self <? last data 0)
      end.
Proof.
  induction data as [|x rest IH]; intros i self self' out r; cbn [feed_loop].
  - intros [= <- _ _]. split; [apply same_config_refl | reflexivity].
  - destruct (feed_step self i x) as [[[s1 o1] r1]|] eqn:H1; [|discriminate].
    destruct (feed_loop rest (i + 1) s1) as [[[s2 o2] r2]|] eqn:H2;
      [|discriminate].
    intros [= <- _ _]. apply feed_step_config in H1. destruct H1 as [C1 L1].
    apply IH in H2. destruct H2 as [C2 L2]. split.
    + eapply same_config_trans; eassumption.
    + rewrite L2. destruct rest as [|y rest']; [exact L1|].
      destruct C1 as (_ & -> & _). reflexivity.
Qed.

Lemma feed_end_config (self : t) (len : Z) out r :
  same_config (fst (feed_end self len out r)) self /\
  _last_edge (fst (feed_end self len out r)) = _last_edge self.
Proof.
  unfold feed_end. destruct (_lf self); [destruct (lost_sync _ _)|];
    repeat split.
Qed.

Lemma feed_config (self self' : t) (data : list Z) out :
  feed self data = Some (self', out) ->
  same_config self' self /\ _last_edge self' = 
  match data with
  | [] => _last_edge self
  | _ :: _ => Some (_threshold self <? last data 0)
  end.
Proof.
  intros H. apply feed_inv in H. destruct H as (s1 & o & r & Hl & He).
  apply feed_loop_config in Hl. destruct Hl as [C1 L1].
  pose proof (feed_end_config s1 (Z.of_nat (List.length data)) o r) as [C2 L2].
  rewrite He in C2, L2. cbn [fst] in C2, L2. split.
  - exact (same_config_trans _ _ _ C2 C1).
  - rewrite L2. exact L1.
Qed.

(** X4: a [feed] that returns has changed neither the sample rate, nor the
    threshold, nor the marker width, nor the channel mapping of the
    decoder. *)
Theorem feed_keeps_config (self self' : t) (data : list Z) out :
  feed self data = Some (self', out) ->
  _rate self' = _rate self /\ _threshold self' = _threshold self /\
  _marker self' = _marker self /\ _mapping self' = _mapping self.
Proof.
  intros H. apply feed_config in H. apply H.
Qed.

Lemma feed_keeps_config_witness :
  _rate (set_lf (set_last_edge (synced 44100 1) (Some true)) (Some (- 41)))
  = _rate (set_lf (set_last_edge (synced 44100 0) (Some false)) (Some (- 30)))
  /\ _threshold
       (set_lf (set_last_edge (synced 44100 1) (Some true)) (Some (- 41)))
     = _threshold
         (set_lf (set_last_edge (synced 44100 0) (Some false)) (Some (- 30)))
  /\ _marker
       (set_lf (set_last_edge (synced 44100 1) (Some true)) (Some (- 41)))
     = _marker
         (set_lf (set_last_edge (synced 44100 0) (Some false)) (Some (- 30)))
  /\ _mapping
       (set_lf (set_last_edge (synced 44100 1) (Some true)) (Some (- 41)))
     = _mapping
         (set_lf (set_last_edge (synced 44100 0) (Some false)) (Some (- 30))).
Proof.
  apply (feed_keeps_config _ _ (lows 10 ++ [high]) [write ABS_X 52; syn]).
  vm_compute. reflexivity.
Defined.

(** X3: after a [feed] of a block that is not empty, the persisted level is
    the level of the last sample of the block: whether it is above the
    threshold. *)
Theorem feed_trailing_level (self self' : t) (data : list Z) out :
  data <> [] ->
  feed self data = Some (self', out) ->
  _last_edge self' = Some (_threshold self <? last data 0).
Proof.
  intros Hne H. apply feed_config in H. destruct H as [_ ->].
  destruct data; [contradiction | reflexivity].
Qed.

Lemma feed_trailing_level_witness :
  _last_edge (set_lf (set_last_edge (synced 44100 1) (Some true)) (Some (- 41)))
  = Some (_threshold
            (set_lf (set_last_edge (synced 44100 0) (Some false)) (Some (- 30)))
          <? last (lows 10 ++ [high]) 0).
Proof.
  apply (feed_trailing_level _ _ (lows 10 ++ [high]) [write ABS_X 52; syn]).
  - vm_compute. discriminate.
  - vm_compute. reflexivity.
Defined.

(** ** Silence *)

Lemma feed_step_low (self : t) (i x : Z) :
  x <= _threshold self ->
  feed_step self i x
  = Some (match _last_edge self with
          | Some true => set_last_edge (set_lf self (Some i)) (Some false)
          | _ => set_last_edge self (Some false)
          end, [], false).
Proof.
  intros H. unfold feed_step.
  destruct (Z.ltb_spec (_threshold self) x); [lia|].
  destruct (_last_edge self) as [[|]|]; reflexivity.
Qed.

Lemma set_last_edge_same (self : t) :
  set_last_edge self (_last_edge self) = self.
Proof. destruct self; reflexivity. Qed.

(** Low samples after a low sample change nothing. *)
Lemma feed_loop_quiet (data : list Z) :
  forall (i : Z) (self : t),
    _last_edge self = Some false -> silent self data = true ->
    feed_loop data i self = Some (self, [], false).
Proof.
  induction data as [|x rest IH]; intros i self Hle Hs; [reflexivity|].
  cbn [silent forallb] in Hs. apply andb_true_iff in Hs.
  destruct Hs as [Hx Hs]. apply Z.leb_le in Hx.
  cbn [feed_loop]. rewrite feed_step_low by exact Hx.
  rewrite Hle, <- Hle, set_last_edge_same.
  rewrite (IH (i + 1) self Hle Hs). reflexivity.
Qed.

Lemma feed_loop_silent (data : list Z) (i : Z) (self : t) :
  silent self data = true ->
  exists self1,
    feed_loop data i self = Some (self1, [], false) /\ _ch self1 = _ch self.
Proof.
  destruct data as [|x rest]; intros Hs; [eexists; split; reflexivity|].
  cbn [silent forallb] in Hs. apply andb_true_iff in Hs.
  destruct Hs as [Hx Hs]. apply Z.leb_le in Hx.
  cbn [feed_loop]. rewrite feed_step_low by exact Hx.
  match goal with |- context [feed_loop rest (i + 1) ?s] => set (s1 := s) end.
  assert (H1 : _last_edge s1 = Some false /\ _ch s1 = _ch self
               /\ _threshold s1 = _threshold self)
    by (subst s1; destruct (_last_edge self) as [[|]|]; repeat split).
  destruct H1 as (Hle & Hch & Hth).
  rewrite (feed_loop_quiet rest (i + 1) s1 Hle)
    by (unfold silent; rewrite Hth; exact Hs).
  exists s1. split; [reflexivity | exact Hch].
Qed.

(** X1: a block whose samples are all at or below the threshold is always
    processed to the end, with no call on the device: no axis write and no
    [syn].  The channel index is kept, unless the sync-loss guard unsets
    it. *)
Theorem feed_silent (self : t) (data : list Z) :
  silent self data = true ->
  exists self',
    feed self data = Some (self', []) /\
    (_ch self' = _ch self \/ _ch self' = None /\ _lf self' = None).
Proof.
  intros Hs. destruct (feed_loop_silent data 0 self Hs) as (s1 & Hl & Hch).
  rewrite (feed_unfold _ _ _ _ _ Hl). unfold feed_end.
  destruct (_lf s1) as [lf|] eqn:Hlf; [destruct (lost_sync _ _)|];
    eexists; (split; [reflexivity|]); cbn [_ch _lf set_lf set_ch]; auto.
Qed.

Lemma feed_silent_witness :
  exists self',
    feed (set_last_edge (synced 44100 2) (Some true)) (lows 100)
    = Some (self', []) /\
    (_ch self' = _ch (set_last_edge (synced 44100 2) (Some true)) \/
     _ch self' = None /\ _lf self' = None).
Proof.
  apply (feed_silent (set_last_edge (synced 44100 2) (Some true)) (lows 100)).
  vm_compute. reflexivity.
Defined.

Lemma feed_quiet (self : t) (data : list Z) :
  _last_edge self = Some false -> silent self data = true ->
  feed self data
  = Some (fst (feed_end self (Z.of_nat (List.length data)) [] false), []).
Proof.
  intros Hle Hs. rewrite (feed_unfold _ _ _ _ _ (feed_loop_quiet _ 0 _ Hle Hs)).
  unfold feed_end. destruct (_lf self); [destruct (lost_sync _ _)|];
    reflexivity.
Qed.

Lemma feed_all_quiet_unset (blocks : list (list Z)) (self : t) :
  _last_edge self = Some false -> _lf self = None ->
  forallb (silent self) blocks = true ->
  feed_all self blocks = Some (self, []).
Proof.
  intros Hle Hlf. induction blocks as [|b rest IH]; intros Hs; [reflexivity|].
  cbn [forallb] in Hs. apply andb_true_iff in Hs. destruct Hs as [Hb Hs].
  cbn [feed_all]. rewrite (feed_quiet _ _ Hle Hb). unfold feed_end.
  rewrite Hlf. cbn [fst]. rewrite (IH Hs). reflexivity.
Qed.

(** X2: silence after a falling edge.  A decoder whose last sample was low
    and whose falling edge is pending at offset [l], at most [rate] samples
    back, is fed blocks of samples at or below the threshold, one after the
    other.  No call is made on the device.  As long as the blocks add up to
    at most [rate + l] samples the offset is only moved back by their length;
    once they add up to more, the decoder is unsynchronised and the offset
    unset, and stays so. *)
Theorem silence_loses_sync (rate : Z) (blocks : list (list Z)) :
  forall (self : t) (l : Z),
    sample_rate self rate ->
    _last_edge self = Some false ->
    _lf self = Some l ->
    - rate <= l ->
    forallb (silent self) blocks = true ->
    feed_all self blocks
    = Some (if l - Z.of_nat (List.length (List.concat blocks)) <? - rate
            then set_lf (set_ch self None) None
            else set_lf self
                   (Some (l - Z.of_nat (List.length (List.concat blocks)))),
            []).
Proof.
  induction blocks as [|b rest IH]; intros self l Hr Hle Hlf Hl Hs.
  - cbn [feed_all List.concat List.length Z.of_nat]. rewrite Z.sub_0_r.
    destruct (Z.ltb_spec l (- rate)); [lia|].
    rewrite <- Hlf, set_lf_same. reflexivity.
  - cbn [forallb] in Hs. apply andb_true_iff in Hs. destruct Hs as [Hb Hs].
    cbn [feed_all List.concat]. rewrite length_app, Nat2Z.inj_add.
    set (nb := Z.of_nat (List.length b)).
    set (nr := Z.of_nat (List.length (List.concat rest))).
    assert (0 <= nb /\ 0 <= nr) as [Hnb Hnr] by (subst nb nr; lia).
    rewrite (feed_quiet _ _ Hle Hb). fold nb. unfold feed_end. rewrite Hlf.
    rewrite (lost_sync_spec _ rate) by (apply set_lf_rate, Hr).
    destruct (Z.ltb_spec (l - nb) (- rate)) as [Hf | Hf]; cbn [fst].
    + rewrite feed_all_quiet_unset; [| exact Hle | reflexivity | exact Hs].
      destruct (Z.ltb_spec (l - (nb + nr)) (- rate)); [|lia].
      destruct self; reflexivity.
    + rewrite (IH (set_lf self (Some (l - nb))) (l - nb));
        [| exact Hr | exact Hle | reflexivity | exact Hf | exact Hs].
      fold nr. replace (l - nb - nr) with (l - (nb + nr)) by lia.
      destruct (_ <? - rate); destruct self; reflexivity.
Qed.

Lemma silence_loses_sync_witness :
  feed_all (set_lf (set_last_edge (synced 8000 2) (Some false)) (Some (- 1)))
    [lows 4000; lows 3999; lows 10]
  = Some (set_last_edge (fresh 8000) (Some false), []).
Proof.
  apply (silence_loses_sync 8000 [lows 4000; lows 3999; lows 10]
           (set_lf (set_last_edge (synced 8000 2) (Some false)) (Some (- 1)))
           (- 1)); try (vm_compute; reflexivity).
  vm_compute. discriminate.
Defined.

(** ** The channel index *)

Lemma lookup_mapping_in_range (k : Z) (a : axis) :
  lookup k mapping = Some a -> 0 <= k < Z.of_nat (List.length mapping).
Proof.
  cbn.
  repeat match goal with
         | |- context [k =? ?c] => destruct (Z.eqb_spec k c); [lia|]
         end.
  discriminate.
Qed.

Lemma signal_ch_bounded (self self' : t) (w : Z) out r :
  _mapping self = mapping -> ch_bounded self ->
  signal self w = Some (self', out, r) -> ch_bounded self'.
Proof.
  intros Hm Hb. unfold signal, ch_bounded in *.
  destruct (_marker self <? w).
  - intros [= <- _ _]. cbn. lia.
  - destruct (_ch self) as [ch|] eqn:Hch.
    + destruct (lookup ch (_mapping self)) as [a|] eqn:Ha.
      * destruct (Py.int_ (scaled self w)); [|discriminate].
        intros [= <- _ _]. cbn [_ch set_ch _mapping]. rewrite Hm in *.
        apply lookup_mapping_in_range in Ha. lia.
      * intros [= <- _ _]. rewrite Hch. exact Hb.
    + intros [= <- _ _]. rewrite Hch. exact I.
Qed.

Lemma feed_step_ch_bounded (self self' : t) (i x : Z) out r :
  _mapping self = mapping -> ch_bounded self ->
  feed_step self i x = Some (self', out, r) -> ch_bounded self'.
Proof.
  intros Hm Hb. unfold feed_step.
  destruct (_last_edge self) as [le|]; [|intros [= <- _ _]; exact Hb].
  destruct (_ && negb le).
  - destruct (_lf self) as [lf|]; [|intros [= <- _ _]; exact Hb].
    destruct (signal self (i - lf)) as [[[s o] b]|] eqn:Hs; [|discriminate].
    intros [= <- _ _]. exact (signal_ch_bounded _ _ _ _ _ Hm Hb Hs).
  - destruct (_ && le); intros [= <- _ _]; exact Hb.
Qed.

Lemma feed_loop_ch_bounded (data : list Z) :
  forall (i : Z) (self self' : t) out r,
    _mapping self = mapping -> ch_bounded self ->
    feed_loop data i self = Some (self', out, r) -> ch_bounded self'.
Proof.
  induction data as [|x rest IH]; intros i self self' out r Hm Hb;
    cbn [feed_loop].
  - intros [= <- _ _]. exact Hb.
  - destruct (feed_step self i x) as [[[s1 o1] r1]|] eqn:H1; [|discriminate].
    destruct (feed_loop rest (i + 1) s1) as [[[s2 o2] r2]|] eqn:H2;
      [|discriminate].
    intros [= <- _ _].
    apply (IH (i + 1) s1 s2 o2 r2); [| |exact H2].
    + destruct (feed_step_config _ _ _ _ _ _ H1) as ((_ & _ & _ & ->) & _).
      exact Hm.
    + exact (feed_step_ch_bounded _ _ _ _ _ _ Hm Hb H1).
Qed.

Lemma feed_ch_bounded (self self' : t) (data : list Z) out :
  _mapping self = mapping -> ch_bounded self ->
  feed self data = Some (self', out) -> ch_bounded self'.
Proof.
  intros Hm Hb H. apply feed_inv in H. destruct H as (s1 & o & r & Hl & He).
  pose proof (feed_loop_ch_bounded _ _ _ _ _ _ Hm Hb Hl) as Hb1.
  revert He. unfold feed_end, ch_bounded in *.
  destruct (_lf s1); [destruct (lost_sync _ _)|]; intros [= <- _];
    try exact Hb1. exact I.
Qed.

Lemma reachable_mapping (rate : Z) (self : t) :
  reachable rate self -> _mapping self = mapping.
Proof.
  induction 1 as [self out H | self data self' out _ IH H].
  - apply (init_fields _ _ _ H).
  - destruct (feed_config _ _ _ _ H) as ((_ & _ & _ & ->) & _). exact IH.
Qed.

(** X5: in every state the decoder reaches, from its construction on, the
    channel index is unset or one of 0, 1, 2, 3, 4: it counts the four
    channels of the mapping and stops at 4, however many pulses a frame
    has. *)
Theorem ch_bounded_invariant (rate : Z) (self : t) :
  reachable rate self ->
  match _ch self with
  | None => True
  | Some k => 0 <= k <= 4
  end.
Proof.
  intros H. assert (Hb : ch_bounded self).
  { induction H as [self out H | self data self' out H0 IH H].
    - unfold ch_bounded. destruct (init_fields _ _ _ H) as (_ & _ & _ & _ & -> & _).
      exact I.
    - exact (feed_ch_bounded _ _ _ _ (reachable_mapping _ _ H0) IH H). }
  unfold ch_bounded in Hb. rewrite (reachable_mapping _ _ H) in Hb. exact Hb.
Qed.

Lemma ch_bounded_invariant_witness :
  match _ch (set_lf (set_last_edge (synced 8000 1) (Some true)) (Some (- 13)))
  with
  | None => True
  | Some k => 0 <= k <= 4
  end.
Proof.
  apply (ch_bounded_invariant 8000).
  apply (reach_feed 8000 (fresh 8000)
           ((high :: lows 8002) ++ [high] ++ lows 12 ++ [high]) _
           [write ABS_X 204; syn]).
  - apply (reach_init 8000 (fresh 8000)
             [UInput "ppmadapter"
                [(ABS_X, (0, 5, 255, 0)); (ABS_Y, (0, 5, 255, 0));
                 (ABS_Z, (0, 5, 255, 0)); (ABS_THROTTLE, (0, 5, 255, 0))]
                [(288, "BTN_JOYSTICK"%string)]]).
    vm_compute. reflexivity.
  - vm_compute. reflexivity.
Defined.

(** ** Pulses and frames *)

Lemma lows_cons (w : Z) : 1 <= w -> lows w = low :: lows (w - 1).
Proof.
  intros H. unfold lows. replace (Z.to_nat w) with (S (Z.to_nat (w - 1))) by lia.
  reflexivity.
Qed.

Lemma length_lows (w : Z) : 0 <= w -> Z.of_nat (List.length (lows w)) = w.
Proof. intros H. unfold lows. rewrite repeat_length. lia. Qed.

Lemma silent_lows (self : t) (w : Z) :
  low <= _threshold self -> silent self (lows w) = true.
Proof.
  intros H. unfold silent, lows. induction (Z.to_nat w) as [|n IH]; [reflexivity|].
  cbn [repeat forallb]. rewrite IH. apply Z.leb_le in H. rewrite H. reflexivity.
Qed.

Lemma length_pulse (w : Z) :
  0 <= w -> Z.of_nat (List.length (pulse w)) = w + 1.
Proof.
  intros H. unfold pulse. rewrite length_app, Nat2Z.inj_add, length_lows by lia.
  reflexivity.
Qed.

Lemma length_frame (ws : list Z) :
  Forall (fun w => 0 <= w) ws ->
  Z.of_nat (List.length (frame ws)) = frame_length ws.
Proof.
  induction 1 as [|w ws Hw _ IH]; [reflexivity|].
  unfold frame in *. cbn [map List.concat frame_length fold_right].
  rewrite length_app, Nat2Z.inj_add, length_pulse, IH by lia. reflexivity.
Qed.

Lemma frame_lf_last (ws : list Z) :
  forall (i w : Z) (lf : option Z),
    frame_lf i lf (w :: ws)
    = Some (i + frame_length (w :: ws) - last (w :: ws) 0 - 1).
Proof.
  induction ws as [|w' ws IH]; intros i w lf.
  - cbn. f_equal. lia.
  - change (frame_lf i lf (w :: w' :: ws))
      with (frame_lf (i + w + 1) (Some i) (w' :: ws)).
    rewrite IH. f_equal.
    change (last (w :: w' :: ws) 0) with (last (w' :: ws) 0).
    change (frame_length (w :: w' :: ws))
      with (w + 1 + frame_length (w' :: ws)).
    lia.
Qed.

(** A pulse after a high sample: the fall is recorded at the index of the
    first low sample, and the rise calls [signal] with the width. *)
Lemma feed_loop_pulse (self : t) (i w : Z) :
  _last_edge self = Some true ->
  low <= _threshold self < high ->
  1 <= w ->
  feed_loop (pulse w) i self
  = lift_state (fun s => set_last_edge s (Some true))
      (signal (set_last_edge (set_lf self (Some i)) (Some false)) w).
Proof.
  intros Hle Hth Hw. unfold pulse. rewrite lows_cons by exact Hw.
  cbn [app feed_loop]. rewrite feed_step_low by lia. rewrite Hle.
  set (A := set_last_edge (set_lf self (Some i)) (Some false)).
  rewrite feed_loop_app.
  rewrite (feed_loop_quiet (lows (w - 1)) (i + 1) A)
    by (try reflexivity; apply silent_lows; cbn; lia).
  rewrite length_lows by lia. cbn [feed_loop].
  unfold feed_step at 1.
  replace (_threshold A <? high) with true
    by (symmetry; apply Z.ltb_lt; cbn; lia).
  cbn [_last_edge A set_last_edge andb negb _lf set_lf].
  replace (i + 1 + (w - 1) - i) with w by lia.
  destruct (signal A w) as [[[s o] r]|]; [|reflexivity].
  cbn [lift_state option_map app orb]. rewrite app_nil_r, orb_false_r.
  reflexivity.
Qed.

Lemma scaled_rate (a b : t) (w : Z) : _rate a = _rate b -> scaled a w = scaled b w.
Proof. intros H. unfold scaled. rewrite H. reflexivity. Qed.

(** The channel pulse of [signal], on a channel of the mapping. *)
Lemma signal_channel (self : t) (w k : Z) (a : axis) (q : Q) :
  w <= _marker self -> _ch self = Some k ->
  lookup k (_mapping self) = Some a ->
  Py.exact (scaled self w) = Some q ->
  signal self w
  = Some (set_ch self (Some (k + 1)), [write a (Py.Qtrunc q)], true).
Proof.
  intros Hw Hch Ha Hq. unfold signal.
  destruct (Z.ltb_spec (_marker self) w); [lia|].
  rewrite Hch, Ha, (int_exact _ _ Hq). reflexivity.
Qed.

Lemma signal_gap (self : t) (w : Z) :
  _marker self < w -> signal self w = Some (set_ch self (Some 0), [], false).
Proof. intros H. unfold signal. apply Z.ltb_lt in H. rewrite H. reflexivity. Qed.

Lemma signal_dropped (self : t) (w : Z) :
  w <= _marker self ->
  _ch self = None \/
  (exists k, _ch self = Some k /\ lookup k (_mapping self) = None) ->
  signal self w = Some (self, [], false).
Proof.
  intros Hw Hch. unfold signal.
  destruct (Z.ltb_spec (_marker self) w); [lia|].
  destruct Hch as [-> | (k & -> & ->)]; reflexivity.
Qed.

Lemma mapping_axes (k : Z) :
  0 <= k < 4 ->
  exists a,
    lookup k mapping = Some a /\
    skipn (Z.to_nat k) (map snd mapping)
    = a :: skipn (Z.to_nat (k + 1)) (map snd mapping).
Proof.
  intros H.
  assert (k = 0 \/ k = 1 \/ k = 2 \/ k = 3) as [-> | [-> | [-> | ->]]] by lia;
    eexists; split; reflexivity.
Qed.

(** The channel pulses of a frame, from channel [k] on. *)
Lemma feed_loop_frame (self0 : t) (ws : list Z) (qs : list Q) :
  Forall2 (fun w q => 1 <= w <= _marker self0 /\
                      Py.exact (scaled self0 w) = Some q) ws qs ->
  low <= _threshold self0 < high ->
  forall (i k : Z) (lf : option Z),
    0 <= k -> k + Z.of_nat (List.length ws) <= 4 ->
    feed_loop (frame ws) i
      (mk (_rate self0) lf (_threshold self0) (Some true) (Some k)
          (_marker self0) mapping)
    = Some (mk (_rate self0) (frame_lf i lf ws) (_threshold self0) (Some true)
               (Some (k + Z.of_nat (List.length ws))) (_marker self0) mapping,
            axis_writes (skipn (Z.to_nat k) (map snd mapping))
              (map Py.Qtrunc qs),
            match ws with [] => false | _ :: _ => true end).
Proof.
  intros HF Hth. induction HF as [|w q ws qs [Hw Hq] _ IH]; intros i k lf Hk Hn.
  - cbn [frame map List.concat feed_loop frame_lf List.length Z.of_nat].
    rewrite Z.add_0_r. unfold axis_writes.
    rewrite combine_nil. reflexivity.
  - cbn [List.length] in Hn. rewrite Nat2Z.inj_succ in Hn.
    destruct (mapping_axes k ltac:(lia)) as (a & Ha & Hsk).
    change (frame (w :: ws)) with (pulse w ++ frame ws).
    rewrite feed_loop_app, feed_loop_pulse; [| reflexivity | exact Hth | lia].
    rewrite (signal_channel _ w k a q); [| cbn; lia | reflexivity | exact Ha |].
    2:{ rewrite <- Hq. apply f_equal, scaled_rate. reflexivity. }
    cbn [lift_state option_map]. unfold set_last_edge, set_ch, set_lf.
    cbn [_rate _lf _threshold _last_edge _ch _marker _mapping].
    rewrite length_pulse by lia.
    rewrite (IH (i + (w + 1)) (k + 1) (Some i)) by lia.
    cbn [frame_lf List.length map]. rewrite Nat2Z.inj_succ, Hsk.
    replace (i + (w + 1)) with (i + w + 1) by lia.
    replace (k + 1 + Z.of_nat (List.length ws))
      with (k + Z.succ (Z.of_nat (List.length ws))) by lia.
    reflexivity.
Qed.

Lemma last_cons_default (a d : Z) (l : list Z) : last (a :: l) d = last l a.
Proof.
  revert a d. induction l as [|b l IH]; intros a d; [reflexivity|].
  change (last (a :: b :: l) d) with (last (b :: l) d).
  rewrite (IH b d), (IH b a). reflexivity.
Qed.

(** X6: a whole frame in one block.  The decoder's last sample was high; the
    block holds a gap wider than the marker (and shorter than one second)
    followed by at most four channel pulses, each of at least one sample and
    not above the marker.  Then [feed] returns; it writes the truncated value
    of each pulse to the axes of the mapping in the order ABS_X, ABS_Y, ABS_Z,
    ABS_THROTTLE, one write per pulse, followed by a single [syn] when
    there is a pulse; the channel index ends at the number of pulses and the
    falling edge of the last pulse stays pending. *)
Theorem feed_frame (rate : Z) (self : t) (g : Z) (ws : list Z) (qs : list Q) :
  sample_rate self rate ->
  _last_edge self = Some true ->
  low <= _threshold self < high ->
  _mapping self = mapping ->
  1 <= g -> _marker self < g < rate ->
  (List.length ws <= 4)%nat ->
  Forall2 (fun w q => 1 <= w <= _marker self /\
                      Py.exact (scaled self w) = Some q) ws qs ->
  feed self (pulse g ++ frame ws)
  = Some (set_lf (set_ch self (Some (Z.of_nat (List.length ws))))
            (Some (- last (g :: ws) 0 - 1)),
          axis_writes (map snd mapping) (map Py.Qtrunc qs)
          ++ match ws with [] => [] | _ :: _ => [syn] end).
Proof.
  intros Hr Hle Hth Hm Hg1 Hg Hn HF.
  assert (Hpos : Forall (fun w => 0 <= w) (g :: ws)).
  { constructor; [lia|]. clear - HF. induction HF as [|w q ws qs [Hw _] _ IH];
      constructor; [lia | exact IH]. }
  assert (Hlast : last (g :: ws) 0 < rate).
  { rewrite last_cons_default.
    assert (Hgr : g < rate) by lia. assert (Hmr : _marker self < rate) by lia.
    clear - HF Hgr Hmr. revert g Hgr.
    induction HF as [|w q ws qs [Hw _] _ IH]; intros g Hgr; [exact Hgr|].
    rewrite last_cons_default. apply IH. lia. }
  pose proof (length_frame _ Hpos) as Hlen.
  change (frame (g :: ws)) with (pulse g ++ frame ws) in Hlen.
  unfold feed. rewrite Hlen.
  rewrite feed_loop_app, feed_loop_pulse; [| exact Hle | exact Hth | exact Hg1].
  rewrite signal_gap by (cbn; lia).
  cbn [lift_state option_map]. rewrite length_pulse by lia.
  destruct self as [rt lf th le ch mkr mp].
  cbn [_last_edge _threshold _mapping _marker] in Hle, Hth, Hm, Hg, HF.
  subst le mp. unfold set_last_edge, set_ch, set_lf.
  cbn [_rate _lf _threshold _last_edge _ch _marker _mapping].
  pose proof (feed_loop_frame (mk rt lf th (Some true) ch mkr mapping) ws qs
                HF Hth (0 + (g + 1)) 0 (Some 0) ltac:(lia) ltac:(lia)) as E.
  cbn [_rate _threshold _marker] in E. rewrite E. clear E.
  change (frame_lf (0 + (g + 1)) (Some 0) ws) with (frame_lf 0 lf (g :: ws)).
  rewrite frame_lf_last. unfold feed_end.
  cbn [_lf app orb]. rewrite (lost_sync_spec _ rate) by exact Hr.
  destruct (Z.ltb_spec
              (0 + frame_length (g :: ws) - last (g :: ws) 0 - 1
               - frame_length (g :: ws)) (- rate)); [lia|].
  unfold set_lf. cbn [_rate _lf _threshold _last_edge _ch _marker _mapping].
  change (skipn (Z.to_nat 0) (map snd mapping)) with (map snd mapping).
  f_equal. f_equal.
  - f_equal. f_equal. lia.
  - destruct ws; rewrite ?app_nil_r; reflexivity.
Qed.

Lemma feed_frame_witness :
  feed (set_last_edge (fresh 44100) (Some true))
    (pulse 300 ++ frame [40; 60; 80])
  = Some (set_lf (set_last_edge (synced 44100 3) (Some true)) (Some (- 81)),
          [write ABS_X 52; write ABS_Y 168; write ABS_Z 284; syn]).
Proof.
  apply (feed_frame 44100 (set_last_edge (fresh 44100) (Some true)) 300
           [40; 60; 80]
           (map (fun w => match Py.exact (scaled (fresh 44100) w) with
                          | Some q => q
                          | None => 0%Q
                          end) [40; 60; 80])).
  - vm_compute. reflexivity.
  - reflexivity.
  - vm_compute. split; congruence.
  - reflexivity.
  - vm_compute. congruence.
  - vm_compute. split; congruence.
  - cbn. lia.
  - repeat constructor; vm_compute; congruence.
Defined.

Lemma feed_loop_frame_dropped (rt : float) (th mkr : Z) (ch : option Z)
  (mp : list (Z * axis)) (ws : list Z) :
  low <= th < high ->
  ch = None \/ (exists k, ch = Some k /\ lookup k mp = None) ->
  Forall (fun w => 1 <= w <= mkr) ws ->
  forall (i : Z) (lf : option Z),
    feed_loop (frame ws) i (mk rt lf th (Some true) ch mkr mp)
    = Some (mk rt (frame_lf i lf ws) th (Some true) ch mkr mp, [], false).
Proof.
  intros Hth Hch HF. induction HF as [|w ws Hw _ IH]; intros i lf.
  - reflexivity.
  - change (frame (w :: ws)) with (pulse w ++ frame ws).
    rewrite feed_loop_app, feed_loop_pulse; [| reflexivity | exact Hth | lia].
    rewrite signal_dropped; [| cbn; lia | exact Hch].
    cbn [lift_state option_map]. unfold set_last_edge, set_lf.
    cbn [_rate _lf _threshold _last_edge _ch _marker _mapping].
    rewrite length_pulse by lia. rewrite IH. cbn [frame_lf app orb].
    replace (i + (w + 1)) with (i + w + 1) by lia. reflexivity.
Qed.

(** X7: a block of channel pulses that the decoder cannot place.  The
    decoder's last sample was high, and it is unsynchronised or its channel
    index is past the four channels of the mapping; the block holds pulses of
    at least one sample, none above the marker.  Then [feed] returns without
    any call on the device, and the channel index is kept, unless the
    sync-loss guard unsets it. *)
Theorem feed_frame_dropped (self : t) (ws : list Z) :
  _last_edge self = Some true ->
  low <= _threshold self < high ->
  _ch self = None \/
  (exists k, _ch self = Some k /\ _mapping self = mapping /\ 4 <= k) ->
  Forall (fun w => 1 <= w <= _marker self) ws ->
  exists self',
    feed self (frame ws) = Some (self', []) /\
    (_ch self' = _ch self \/ _ch self' = None /\ _lf self' = None).
Proof.
  intros Hle Hth Hch HF. destruct self as [rt lf th le ch mkr mp].
  cbn [_last_edge _threshold _ch _mapping _marker] in *. subst le.
  assert (Hch' : ch = None \/ (exists k, ch = Some k /\ lookup k mp = None)).
  { destruct Hch as [-> | (k & -> & -> & Hk)]; [auto|]. right. exists k.
    split; [reflexivity|]. apply lookup_mapping_out_of_range. cbn. lia. }
  unfold feed. rewrite (feed_loop_frame_dropped rt th mkr ch mp ws Hth Hch' HF).
  unfold feed_end. cbn [_lf].
  destruct (frame_lf 0 lf ws); [destruct (lost_sync _ _)|];
    eexists; (split; [reflexivity|]); cbn [_ch _lf set_lf set_ch]; auto.
Qed.

Lemma feed_frame_dropped_witness :
  exists self',
    feed (set_last_edge (synced 44100 4) (Some true)) (frame [40; 60])
    = Some (self', []) /\
    (_ch self' = _ch (set_last_edge (synced 44100 4) (Some true)) \/
     _ch self' = None /\ _lf self' = None).
Proof.
  apply (feed_frame_dropped (set_last_edge (synced 44100 4) (Some true))
           [40; 60]).
  - reflexivity.
  - vm_compute. split; congruence.
  - right. exists 4. repeat split. vm_compute. congruence.
  - repeat constructor; vm_compute; congruence.
Defined.

(** ** The choice of the input device *)

Lemma prefix_refl (s : string) : String.prefix s s = true.
Proof.
  induction s as [|a s IH]; [reflexivity|]. cbn.
  destruct (Ascii.ascii_dec a a) as [_ | N]; [exact IH | contradiction].
Qed.

Lemma contains_refl (s : string) : Main.contains s s = true.
Proof. destruct s; cbn [Main.contains]; rewrite prefix_refl; reflexivity. Qed.

Lemma select_from_exact (arg : string) (pre : list Main.device) :
  forall (d : Main.device) (post : list Main.device) (cur : Main.choice),
    Main.name d = arg ->
    Forall (fun d' => Main.name d' <> arg /\
                      (Main.contains arg (Main.name d') = true ->
                       Py.int_ (Main.defaultSampleRate d') <> None)) pre ->
    Main.select_from arg (pre ++ d :: post) cur = Main.take d.
Proof.
  induction pre as [|d' pre IH]; intros d post cur Hd Hpre.
  - cbn [app Main.select_from]. rewrite Hd, String.eqb_refl. reflexivity.
  - inversion Hpre as [|? ? [Hne Hfin] Hpre']; subst.
    cbn [app Main.select_from].
    destruct (String.eqb_spec (Main.name d) (Main.name d')) as [E | _];
      [congruence|].
    destruct (Main.contains (Main.name d) (Main.name d')) eqn:Hc.
    + unfold Main.take at 1.
      destruct (Py.int_ (Main.defaultSampleRate d')) as [r'|];
        [|exfalso; apply Hfin; reflexivity].
      apply IH; auto.
    + apply IH; auto.
Qed.

(** X8: when a device has exactly the name asked for, [main] takes the first
    such device, its index, the integer part of its default sample rate and
    its name, whatever the devices after it are and even when the names of
    devices before it contain the name asked for. *)
Theorem select_exact (arg : string) (pre post : list Main.device)
  (d : Main.device) (rate : Z) :
  Main.name d = arg ->
  Forall (fun d' => Main.name d' <> arg /\
                    (Main.contains arg (Main.name d') = true ->
                     Py.int_ (Main.defaultSampleRate d') <> None)) pre ->
  Py.int_ (Main.defaultSampleRate d) = Some rate ->
  Main.select arg (pre ++ d :: post)
  = Some (Some (Main.index d), Some rate, Some arg).
Proof.
  intros Hd Hpre Hr. unfold Main.select.
  rewrite (select_from_exact arg pre d post _ Hd Hpre).
  unfold Main.take. rewrite Hr, Hd. reflexivity.
Qed.

Lemma select_exact_witness :
  Main.select "default"
    ([Main.Build_device "sysdefault" 0 48000%float]
     ++ Main.Build_device "default" 1 44100%float
     :: [Main.Build_device "default" 2 8000%float])
  = Some (Some 1, Some 44100, Some "default"%string).
Proof.
  apply (select_exact "default"
           [Main.Build_device "sysdefault" 0 48000%float]
           [Main.Build_device "default" 2 8000%float]
           (Main.Build_device "default" 1 44100%float) 44100).
  - reflexivity.
  - repeat constructor; vm_compute; congruence.
  - vm_compute. reflexivity.
Defined.

Lemma select_from_none (arg : string) (devices : list Main.device)
  (cur : Main.choice) :
  Forall (fun d => Main.contains arg (Main.name d) = false) devices ->
  Main.select_from arg devices cur = Some cur.
Proof.
  induction 1 as [|d devices Hd _ IH]; [reflexivity|].
  cbn [Main.select_from].
  destruct (String.eqb_spec arg (Main.name d)) as [E | _].
  - rewrite <- E, contains_refl in Hd. discriminate.
  - rewrite Hd. exact IH.
Qed.

(** X9: when no device has exactly the name asked for, [main] takes the last
    device whose name contains it. *)
Theorem select_substring (arg : string) (pre post : list Main.device)
  (d : Main.device) (rate : Z) :
  Forall (fun d' => Main.name d' <> arg /\
                    (Main.contains arg (Main.name d') = true ->
                     Py.int_ (Main.defaultSampleRate d') <> None)) pre ->
  Main.name d <> arg ->
  Main.contains arg (Main.name d) = true ->
  Py.int_ (Main.defaultSampleRate d) = Some rate ->
  Forall (fun d' => Main.contains arg (Main.name d') = false) post ->
  Main.select arg (pre ++ d :: post)
  = Some (Some (Main.index d), Some rate, Some (Main.name d)).
Proof.
  intros Hpre Hne Hc Hr Hpost. unfold Main.select.
  generalize ((None, None, None) : Main.choice).
  induction Hpre as [|d' pre [Hne' Hfin] _ IH]; intros cur;
    cbn [app Main.select_from].
  - destruct (String.eqb_spec arg (Main.name d)) as [E | _]; [congruence|].
    rewrite Hc. unfold Main.take. rewrite Hr.
    apply select_from_none, Hpost.
  - destruct (String.eqb_spec arg (Main.name d')) as [E | _]; [congruence|].
    destruct (Main.contains arg (Main.name d')) eqn:Hc'.
    + unfold Main.take.
      destruct (Py.int_ (Main.defaultSampleRate d')) as [r'|];
        [|exfalso; apply Hfin; reflexivity].
      apply IH.
    + apply IH.
Qed.

Lemma select_substring_witness :
  Main.select "USB"
    ([Main.Build_device "default" 0 44100%float;
      Main.Build_device "USB Audio: mic" 1 48000%float]
     ++ Main.Build_device "USB Audio: trainer" 2 44100%float
     :: [Main.Build_device "pulse" 3 44100%float])
  = Some (Some 2, Some 44100, Some "USB Audio: trainer"%string).
Proof.
  apply (select_substring "USB"
           [Main.Build_device "default" 0 44100%float;
            Main.Build_device "USB Audio: mic" 1 48000%float]
           [Main.Build_device "pulse" 3 44100%float]
           (Main.Build_device "USB Audio: trainer" 2 44100%float) 44100).
  - repeat constructor; vm_compute; congruence.
  - vm_compute. congruence.
  - vm_compute. reflexivity.
  - vm_compute. reflexivity.
  - repeat constructor.
Defined.

(** X10: when no device has a name that contains the name asked for, the
    loop of [main] ends with [in_ix], [rate] and [in_name] still [None]. *)
Theorem select_no_match (arg : string) (devices : list Main.device) :
  Forall (fun d => Main.contains arg (Main.name d) = false) devices ->
  Main.select arg devices = Some (None, None, None).
Proof. intros H. apply select_from_none, H. Qed.

Lemma select_no_match_witness :
  Main.select "default"
    [Main.Build_device "pulse" 0 44100%float;
     Main.Build_device "USB Audio" 1 48000%float]
  = Some (None, None, None).
Proof.
  apply (select_no_match "default"
           [Main.Build_device "pulse" 0 44100%float;
            Main.Build_device "USB Audio" 1 48000%float]).
  repeat constructor.
Defined.

(** [Main.contains sub s] holds exactly when [sub] occurs in [s]. *)
Lemma prefix_spec (s1 : string) :
  forall s2 : string,
    String.prefix s1 s2 = true <-> exists r, s2 = (s1 ++ r)%string.
Proof.
  induction s1 as [|a s1 IH]; intros s2.
  - destruct s2; cbn; split; eauto.
  - destruct s2 as [|b s2]; cbn.
    + split; [discriminate | intros [r Hr]; discriminate].
    + destruct (Ascii.ascii_dec a b) as [-> | N].
      * rewrite IH. split; intros [r Hr]; exists r; congruence.
      * split; [discriminate | intros [r Hr]; congruence].
Qed.

Lemma contains_spec (sub s : string) :
  Main.contains sub s = true <-> exists l r, s = (l ++ sub ++ r)%string.
Proof.
  induction s as [|a s IH]; cbn [Main.contains].
  - rewrite orb_false_r, prefix_spec. split.
    + intros [r Hr]. exists EmptyString, r. exact Hr.
    + intros (l & r & H). destruct l; [exists r; exact H|discriminate].
  - rewrite orb_true_iff, prefix_spec, IH. split.
    + intros [[r Hr] | (l & r & Hr)].
      * exists EmptyString, r. exact Hr.
      * exists (String a l), r. cbn. congruence.
    + intros (l & r & H). destruct l as [|b l].
      * left. exists r. exact H.
      * right. exists l, r. cbn in H. congruence.
Qed.

(** ** The order of the calls of a block *)

(** X11: the calls a [feed] makes on the device are axis writes followed, when
    there is at least one write, by a single [syn] that comes last; the
    device is never created again. *)
Theorem feed_trace_shape (self self' : t) (data : list Z) out :
  feed self data = Some (self', out) ->
  exists ws,
    Forall (fun c => is_write c = true) ws /\
    out = ws ++ match ws with [] => [] | _ :: _ => [syn] end.
Proof.
  intros H. apply feed_inv in H. destruct H as (s1 & o & r & Hl & He).
  destruct (feed_loop_only_writes _ _ _ _ _ _ Hl) as [F ->].
  exists o. split; [exact F|].
  revert He. unfold feed_end.
  destruct (_lf s1); [destruct (lost_sync _ _)|]; intros [= _ <-];
    destruct o; rewrite ?app_nil_r; reflexivity.
Qed.

Lemma feed_trace_shape_witness :
  exists ws,
    Forall (fun c => is_write c = true) ws /\
    [write ABS_X 52; write ABS_Y 168; write ABS_Z 284; syn]
    = ws ++ match ws with [] => [] | _ :: _ => [syn] end.
Proof.
  apply (feed_trace_shape (set_last_edge (fresh 44100) (Some true))
           (set_lf (set_last_edge (synced 44100 3) (Some true)) (Some (- 81)))
           (pulse 300 ++ frame [40; 60; 80])).
  vm_compute. reflexivity.
Defined.
